(** * A shallow embedding of the electrum client session core

    The development follows [client.go], [data.go] and [subscription.go]:
    the request counter and the map of pending subscriptions guarded by the
    client mutex, the dispatcher that routes incoming responses, the
    synchronous and batched request paths, the resume procedure, [Close],
    and the JSON encoding of requests.

    Go values are modelled as the code has them: [int] is a 64-bit two's
    complement integer (a [Z] with the wrap-around written out), [string]
    and [[]byte] are byte sequences, [map[int]*subscription] is a finite
    map, channels are handles into a store of open/closed flags, and the
    mutex embedded in [Client] is a flag that a second [Lock] blocks on. *)

From Stdlib Require Import ZArith String Ascii List Lia Bool.
From Stdlib Require Import DecimalString DecimalZ.
From stdpp Require Import base option list gmap strings.

Import ListNotations.
Local Open Scope Z_scope.

(** ** Go integers *)

Module GoInt.

Definition minInt : Z := - 2 ^ 63.
Definition maxInt : Z := 2 ^ 63 - 1.

(** Two's complement wrap-around of a 64-bit [int]. *)
Definition wrap (z : Z) : Z := (z + 2 ^ 63) mod 2 ^ 64 - 2 ^ 63.

(** [x++] on an [int]. *)
Definition incr (z : Z) : Z := wrap (z + 1).

End GoInt.

(** ** Dynamic values

    [any] holds what the callers of this package pass as request
    parameters: nil, booleans, ints, strings and slices of those. [Func]
    stands for a value of a kind [json.Marshal] rejects (func, chan,
    complex). *)

#[local] Unset Elimination Schemes.
Inductive any : Type :=
| Nil
| Bool (b : bool)
| Int (z : Z)
| Str (s : string)
| Slice (l : list any)
| Func.

(** [json] holds what [encoding/json] stores when it decodes into an
    [interface{}]: nil, bool, float64, string, []interface{} and
    map[string]interface{}. [JNumber m e] is the number [m * 2 ^ e]. *)
Inductive json : Type :=
| JNull
| JBool (b : bool)
| JNumber (m e : Z)
| JString (s : string)
| JArray (l : list json)
| JObject (kv : list (string * json)).
#[local] Set Elimination Schemes.

(** A Go slice of [any] is either nil or a (possibly empty) sequence. *)
Definition slice_any : Type := option (list any).

Definition len_slice (p : slice_any) : nat :=
  match p with None => 0%nat | Some l => length l end.

(** ** data.go: wire structures *)

Record rpcError : Type := mk_rpcError {
  Code : Z;
  Message : string;
  Data : option (list (string * json))
}.

Record response : Type := mk_response {
  resp_RPC : string;
  resp_ID : Z;
  resp_Method : string;
  resp_Params : json;
  resp_Result : json;
  resp_Error : option rpcError
}.

Record request : Type := mk_request {
  RPC : string;
  ID : Z;
  Method : string;
  Params : slice_any
}.

(** ** encoding/json: Marshal

    The encoder of the Go standard library, for the values above. Strings
    are written as [appendString] does with HTML escaping on (the default
    of [json.Marshal]): the bytes below 0x20, the double quote, the
    backslash and the characters <, > and & are escaped, invalid UTF-8 is
    replaced by U+FFFD, U+2028 and U+2029 are escaped, and everything else
    is copied. *)

Definition bytes : Type := list ascii.

Definition lit (s : string) : bytes := list_ascii_of_string s.

Definition dquote : ascii := "034"%char.
Definition backslash : ascii := "092"%char.

Definition byte_val (b : ascii) : N := N_of_ascii b.

Definition is_cont (b : ascii) : bool :=
  ((128 <=? byte_val b) && (byte_val b <=? 191))%N.

Definition in_range (lo hi : N) (b : ascii) : bool :=
  ((lo <=? byte_val b) && (byte_val b <=? hi))%N.

(** The width of the UTF-8 sequence at the head of [s], as
    [utf8.DecodeRune] accepts it; [None] is RuneError with width 1. *)
Definition rune_len (s : bytes) : option nat :=
  match s with
  | [] => None
  | b0 :: t =>
      let n0 := byte_val b0 in
      if (n0 <? 128)%N then Some 1%nat
      else if (n0 <? 194)%N then None
      else if (n0 <? 224)%N then
        match t with
        | b1 :: _ => if is_cont b1 then Some 2%nat else None
        | _ => None
        end
      else if (n0 <? 240)%N then
        match t with
        | b1 :: b2 :: _ =>
            let lo := if (n0 =? 224)%N then 160%N else 128%N in
            let hi := if (n0 =? 237)%N then 159%N else 191%N in
            if in_range lo hi b1 && is_cont b2 then Some 3%nat else None
        | _ => None
        end
      else if (n0 <? 245)%N then
        match t with
        | b1 :: b2 :: b3 :: _ =>
            let lo := if (n0 =? 240)%N then 144%N else 128%N in
            let hi := if (n0 =? 244)%N then 143%N else 191%N in
            if in_range lo hi b1 && is_cont b2 && is_cont b3
            then Some 4%nat else None
        | _ => None
        end
      else None
  end.

(** Is the sequence at the head U+2028 or U+2029 (E2 80 A8, E2 80 A9). *)
Definition line_sep (s : bytes) : option ascii :=
  match s with
  | b0 :: b1 :: b2 :: _ =>
      if ((byte_val b0 =? 226) && (byte_val b1 =? 128))%N
      then if (byte_val b2 =? 168)%N then Some "8"%char
           else if (byte_val b2 =? 169)%N then Some "9"%char
           else None
      else None
  | _ => None
  end.

Definition hex_digit (n : N) : ascii :=
  nth (N.to_nat n) (lit "0123456789abcdef") "0"%char.

(** [htmlSafeSet]: the ASCII bytes written without escaping. *)
Definition htmlSafe (b : ascii) : bool :=
  ((32 <=? byte_val b) && (byte_val b <? 128))%N
  && negb (Ascii.eqb b dquote) && negb (Ascii.eqb b backslash)
  && negb (Ascii.eqb b "<"%char) && negb (Ascii.eqb b ">"%char)
  && negb (Ascii.eqb b "&"%char).

(** The escape written for an ASCII byte outside [htmlSafeSet]. *)
Definition escape_byte (b : ascii) : bytes :=
  if Ascii.eqb b dquote || Ascii.eqb b backslash then [backslash; b]
  else if (byte_val b =? 8)%N then backslash :: lit "b"
  else if (byte_val b =? 12)%N then backslash :: lit "f"
  else if (byte_val b =? 10)%N then backslash :: lit "n"
  else if (byte_val b =? 13)%N then backslash :: lit "r"
  else if (byte_val b =? 9)%N then backslash :: lit "t"
  else backslash :: lit "u00"
       ++ [hex_digit (byte_val b / 16); hex_digit (byte_val b mod 16)].

(** The body of [appendString]. The loop advances by the width of the
    sequence at the head; [pending] counts the bytes of that sequence
    still to pass, copied when [keep] is set and dropped otherwise. *)
Fixpoint quote_from (pending : nat) (keep : bool) (s : bytes) : bytes :=
  match s with
  | [] => []
  | b :: t =>
      match pending with
      | S k => (if keep then [b] else []) ++ quote_from k keep t
      | O =>
          if (byte_val b <? 128)%N then
            (if htmlSafe b then [b] else escape_byte b) ++ quote_from 0 true t
          else
            match rune_len s with
            | None => backslash :: lit "ufffd" ++ quote_from 0 true t
            | Some n =>
                match line_sep s with
                | Some d =>
                    backslash :: lit "u202" ++ [d] ++ quote_from (n - 1) false t
                | None => b :: quote_from (n - 1) true t
                end
            end
      end
  end.

Definition appendString (s : string) : bytes :=
  dquote :: quote_from 0 true (list_ascii_of_string s) ++ [dquote].

(** [strconv.AppendInt(b, n, 10)] *)
Definition appendInt (z : Z) : bytes :=
  list_ascii_of_string (NilZero.string_of_int (Z.to_int z)).

Definition comma : string := ",".
Definition arrayStart : string := "[".
Definition arrayEnd : string := "]".
Definition delimiter : ascii := "010"%char.

(** [json.Marshal] of an [any]; [None] is an UnsupportedTypeError. *)
Fixpoint marshal_any (v : any) : option bytes :=
  match v with
  | Nil => Some (lit "null")
  | Bool true => Some (lit "true")
  | Bool false => Some (lit "false")
  | Int z => Some (appendInt z)
  | Str s => Some (appendString s)
  | Slice l =>
      let fix elems (first : bool) (l : list any) : option bytes :=
        match l with
        | [] => Some []
        | x :: l' =>
            match marshal_any x, elems false l' with
            | Some bx, Some bl =>
                Some ((if first then [] else lit ",") ++ bx ++ bl)
            | _, _ => None
            end
        end in
      match elems true l with
      | Some body => Some (lit "[" ++ body ++ lit "]")
      | None => None
      end
  | Func => None
  end.

(** [json.Marshal] of a [[]any]: a nil slice is written as null. *)
Definition marshal_slice (p : slice_any) : option bytes :=
  match p with
  | None => Some (lit "null")
  | Some l => marshal_any (Slice l)
  end.

(** The name of a struct field, as the encoder writes it before the value. *)
Definition field (tag : string) : bytes := dquote :: lit tag ++ [dquote; ":"%char].

(** [json.Marshal] of a [*request]: the fields in declaration order under
    their tags. *)
Definition marshal_request (r : request) : option bytes :=
  match marshal_slice (Params r) with
  | Some ps =>
      Some (lit "{" ++ field "jsonrpc" ++ appendString (RPC r)
            ++ lit "," ++ field "id" ++ appendInt (ID r)
            ++ lit "," ++ field "method" ++ appendString (Method r)
            ++ lit "," ++ field "params" ++ ps ++ lit "}")
  | None => None
  end.

(** ** Errors *)

Inductive error : Type :=
| ErrDeprecatedMethod
| ErrUnavailableMethod
| ErrRejectedTx
| ErrUnreachableHost
| ErrConnectionDown
| ErrMarshal
| ErrUnmarshal
| ErrNew (msg : string).

(** ** Channels, contexts and the transport *)

(** [chan *response] values are handles. The store records which handles
    have been closed; handles below [next_chan] have been made. Channels
    are unbuffered: a send is a rendezvous with the goroutine parked on
    the channel, so a send is modelled as a delivery returned by the
    sender and handed to that receiver. *)
Definition chan : Type := nat.

(** Modelled from the spec: the transport (transport.go is not part of the
    sources). [send] enqueues a pre-framed message and fails with
    ConnectionDown when the connection is not open; [close] closes the
    socket and the outbound streams. *)
Record transport_t : Type := mk_transport {
  t_open : bool;
  t_sent : list (list ascii)
}.

Inductive State : Type := Connected | Disconnected | Reconnected.

(** ** client.go: the client *)

Record subscription : Type := mk_subscription {
  method : string;
  params : slice_any;
  messages : chan;
  handler : option nat;
  ctx : option nat
}.

(** [handler] and [ctx] name the closure and the caller's context; the zero
    value of both is nil. *)

Record Client : Type := mk_Client {
  Address : string;
  Version : string;
  Protocol : string;
  done : bool;                     (* is the [done] channel closed *)
  transport : transport_t;
  counter : Z;
  subs : gmap Z subscription;
  agent : string;
  bgProcessing : bool;             (* has [cleanUp] cancelled the context *)
  resuming : option nat;           (* generation of the current resume context *)
  resumes_cancelled : gset nat;
  mu : bool;                       (* sync.Mutex: is it held *)
  closed_chans : gset chan;
  next_chan : chan
}.

Definition set_counter (n : Z) (c : Client) : Client :=
  mk_Client (Address c) (Version c) (Protocol c) (done c) (transport c) n
    (subs c) (agent c) (bgProcessing c) (resuming c) (resumes_cancelled c)
    (mu c) (closed_chans c) (next_chan c).

Definition set_subs (m : gmap Z subscription) (c : Client) : Client :=
  mk_Client (Address c) (Version c) (Protocol c) (done c) (transport c)
    (counter c) m (agent c) (bgProcessing c) (resuming c)
    (resumes_cancelled c) (mu c) (closed_chans c) (next_chan c).

Definition set_mu (b : bool) (c : Client) : Client :=
  mk_Client (Address c) (Version c) (Protocol c) (done c) (transport c)
    (counter c) (subs c) (agent c) (bgProcessing c) (resuming c)
    (resumes_cancelled c) b (closed_chans c) (next_chan c).

Definition set_done (b : bool) (c : Client) : Client :=
  mk_Client (Address c) (Version c) (Protocol c) b (transport c)
    (counter c) (subs c) (agent c) (bgProcessing c) (resuming c)
    (resumes_cancelled c) (mu c) (closed_chans c) (next_chan c).

Definition set_transport (t : transport_t) (c : Client) : Client :=
  mk_Client (Address c) (Version c) (Protocol c) (done c) t
    (counter c) (subs c) (agent c) (bgProcessing c) (resuming c)
    (resumes_cancelled c) (mu c) (closed_chans c) (next_chan c).

Definition set_bgProcessing (b : bool) (c : Client) : Client :=
  mk_Client (Address c) (Version c) (Protocol c) (done c) (transport c)
    (counter c) (subs c) (agent c) b (resuming c)
    (resumes_cancelled c) (mu c) (closed_chans c) (next_chan c).

Definition set_resuming (r : option nat) (k : gset nat) (c : Client) : Client :=
  mk_Client (Address c) (Version c) (Protocol c) (done c) (transport c)
    (counter c) (subs c) (agent c) (bgProcessing c) r k
    (mu c) (closed_chans c) (next_chan c).

Definition set_chans (k : gset chan) (n : chan) (c : Client) : Client :=
  mk_Client (Address c) (Version c) (Protocol c) (done c) (transport c)
    (counter c) (subs c) (agent c) (bgProcessing c) (resuming c)
    (resumes_cancelled c) (mu c) k n.

(** ** Outcomes of a call

    A call of a method of [Client] either returns, panics, or blocks for
    ever (on the mutex it already holds, or on a channel nothing more is
    sent to). *)

Inductive panic : Type :=
| CloseOfClosedChannel
| SendOnClosedChannel
| NilDereference
| TypeAssertion
| IndexOutOfRange.

Inductive block : Type :=
| OnMutex
| OnRecv (ch : chan)
| OnSend (ch : chan)
| OnSelect.

Inductive outcome (A : Type) : Type :=
| Done (a : A) (c : Client)
| Panics (p : panic)
| Blocks (b : block).

Arguments Done {A} a c.
Arguments Panics {A} p.
Arguments Blocks {A} b.

Definition M (A : Type) : Type := Client -> outcome A.

Definition ret {A} (a : A) : M A := fun c => Done a c.

Definition bind {A B} (m : M A) (k : A -> M B) : M B :=
  fun c =>
    match m c with
    | Done a c' => k a c'
    | Panics p => Panics p
    | Blocks b => Blocks b
    end.

Declare Scope go_scope.
Delimit Scope go_scope with go.
Notation "x <- m ;; k" := (bind m (fun x => k))
  (at level 20, m at level 99, k at level 200, only parsing) : go_scope.
Notation "m ;; k" := (bind m (fun _ => k))
  (at level 100, k at level 200, only parsing, right associativity) : go_scope.
Local Open Scope go_scope.

Definition get {A} (f : Client -> A) : M A := fun c => Done (f c) c.
Definition modify (f : Client -> Client) : M unit := fun c => Done tt (f c).
Definition throw {A} (p : panic) : M A := fun _ => Panics p.
Definition park {A} (b : block) : M A := fun _ => Blocks b.

(** [c.Lock()] and [c.Unlock()]. sync.Mutex is not reentrant: locking
    it while it is held parks the caller until somebody unlocks, and
    every [Unlock] of this program is issued by the holder itself. *)
Definition Lock : M unit :=
  fun c => if mu c then Blocks OnMutex else Done tt (set_mu true c).

Definition Unlock : M unit := modify (set_mu false).

(** [make(chan *response)], [close(ch)] and the check made by a send. *)
Definition make_chan : M chan :=
  fun c => Done (next_chan c) (set_chans (closed_chans c) (S (next_chan c)) c).

Definition close_chan (ch : chan) : M unit :=
  fun c =>
    if decide (ch ∈ closed_chans c) then Panics CloseOfClosedChannel
    else Done tt (set_chans ({[ch]} ∪ closed_chans c) (next_chan c) c).

Definition send_chan (ch : chan) : M unit :=
  fun c =>
    if decide (ch ∈ closed_chans c) then Panics SendOnClosedChannel
    else Done tt c.

(** Modelled from the spec: [transport.sendMessage] and [transport.close]. *)
Definition sendMessage (b : list ascii) : M (option error) :=
  fun c =>
    let t := transport c in
    if t_open t
    then Done None (set_transport (mk_transport true (t_sent t ++ [b])) c)
    else Done (Some ErrConnectionDown) c.

Definition transport_close : M unit :=
  modify (fun c => set_transport (mk_transport false (t_sent (transport c))) c).

(** ** Building requests *)

(** [func (c *Client) req(name string, params ...any) *request] *)
Definition req (name : string) (ps : slice_any) : M request :=
  Lock ;;
  let ps' := if Nat.eqb (len_slice ps) 0 then Some [] else ps in
  id <- get counter ;;
  let r := mk_request EmptyString id name ps' in
  modify (fun c => set_counter (GoInt.incr (counter c)) c) ;;
  Unlock ;;
  ret r.

(** [func (c *Client) batchReq(name string, params [][]any) []*request] *)
Fixpoint batchReq (name : string) (ps : list slice_any) : M (list request) :=
  match ps with
  | [] => ret []
  | p :: ps' =>
      r <- req name p ;;
      rs <- batchReq name ps' ;;
      ret (r :: rs)
  end.

(** ** The dispatcher *)

Definition delivery : Type := (chan * response)%type.

(** The loop of [handleResponse] over the subscriptions with the method of
    a notification. *)
Fixpoint notify (resp : response) (l : list (Z * subscription)) : M (list delivery) :=
  match l with
  | [] => ret []
  | (_, sub) :: l' =>
      if String.eqb (method sub) (resp_Method resp)
      then send_chan (messages sub) ;;
           ds <- notify resp l' ;;
           ret ((messages sub, resp) :: ds)
      else notify resp l'
  end.

(** [func (c *Client) handleResponse(resp *response)]. The result lists
    the sends it performed. Go ranges over the map in an unspecified
    order; the model takes the order of [map_to_list]. *)
Definition handleResponse (resp : response) : M (list delivery) :=
  if negb (String.eqb (resp_Method resp) EmptyString)
  then
    Lock ;;
    m <- get subs ;;
    ds <- notify resp (map_to_list m) ;;
    Unlock ;;
    ret ds
  else
    Lock ;;
    m <- get subs ;;
    Unlock ;;
    match m !! resp_ID resp with
    | Some sub => send_chan (messages sub) ;; ret [(messages sub, resp)]
    | None => ret []
    end.

(** [func (c *Client) removeSubscription(id int)] *)
Definition removeSubscription (id : Z) : M unit :=
  Lock ;;
  m <- get subs ;;
  match m !! id with
  | Some sub =>
      close_chan (messages sub) ;;
      modify (fun c => set_subs (delete id (subs c)) c) ;;
      Unlock
  | None => Unlock
  end.

(** ** data.go: encode *)

Definition with_RPC (r : request) : request :=
  if String.eqb (RPC r) EmptyString
  then mk_request "2.0" (ID r) (Method r) (Params r)
  else r.

(** [func (r *request) encode() ([]byte, error)]. The store to [r.RPC]
    is observed through the marshalled bytes only. *)
Definition encode (r : request) : error + bytes :=
  match marshal_request (with_RPC r) with
  | None => inl ErrMarshal
  | Some b => inr (b ++ [delimiter])
  end.

(** ** Subscriptions *)

Definition register (id : Z) (sub : subscription) : M unit :=
  Lock ;;
  modify (fun c => set_subs (<[id := sub]> (subs c)) c) ;;
  Unlock.

(** [func (c *Client) startSubscription(sub *subscription) error]. The
    goroutine it starts is the receiver parked on [sub.messages]: it
    passes every delivery to [sub.handler] until the channel is closed or
    [sub.ctx] is done. *)
Definition startSubscription (sub : subscription) : M (option error) :=
  r <- req (method sub) (params sub) ;;
  register (ID r) sub ;;
  match encode r with
  | inl err => removeSubscription (ID r) ;; ret (Some err)
  | inr b =>
      e <- sendMessage b ;;
      match e with
      | Some err => removeSubscription (ID r) ;; ret (Some err)
      | None => ret None
      end
  end.

(** ** handleMessages

    One round of the [select] of [handleMessages]. A frame is given by the
    responses [json.Unmarshal] decodes from it, one event per response
    (the loop over a batch calls [handleResponse] on each in turn). After
    the [done] branch the goroutine has returned and handles nothing. *)

Inductive event : Type :=
| EvResponse (resp : response)
| EvError
| EvDone.

Fixpoint removeAll (ids : list Z) : M unit :=
  match ids with
  | [] => ret tt
  | id :: ids' => removeSubscription id ;; removeAll ids'
  end.

Definition cleanUp : M unit := modify (set_bgProcessing true).

Definition handleMessages (ev : event) : M (list delivery) :=
  stopped <- get bgProcessing ;;
  if (stopped : bool) then ret []
  else
    match ev with
    | EvDone =>
        closed <- get done ;;
        if (closed : bool) then
          m <- get subs ;;
          removeAll (map fst (map_to_list m)) ;;
          cleanUp ;;
          ret []
        else ret []
    | EvError => ret []
    | EvResponse resp => handleResponse resp
    end.

(** The values a receiver parked on [ch] is handed. *)
Fixpoint inbox (ch : chan) (ds : list delivery) : list response :=
  match ds with
  | [] => []
  | (ch', resp) :: ds' =>
      if Nat.eqb ch' ch then resp :: inbox ch ds' else inbox ch ds'
  end.

(** ** Synchronous requests *)

(** [<-res]: the caller is parked on [res] while the dispatcher handles
    the events of [wire]. A closed channel yields nil. A second send of
    the same round finds no receiver. *)
Fixpoint await (res : chan) (wire : list event) : M (option response * list event) :=
  fun c =>
    if decide (res ∈ closed_chans c) then Done (None, wire) c
    else
      match wire with
      | [] => Blocks (OnRecv res)
      | ev :: wire' =>
          match handleMessages ev c with
          | Done ds c' =>
              match inbox res ds with
              | [] => await res wire' c'
              | [resp] => Done (Some resp, wire') c'
              | _ => Blocks (OnSend res)
              end
          | Panics p => Panics p
          | Blocks b => Blocks b
          end
      end.

(** [func (c *Client) syncRequest(req *request)], returning a [*response]
    and an [error]. *)
Definition syncRequest (r : request) (wire : list event)
  : M ((error + option response) * list event) :=
  res <- make_chan ;;
  register (ID r) (mk_subscription EmptyString None res None None) ;;
  match encode r with
  | inl err => removeSubscription (ID r) ;; ret (inl err, wire)
  | inr b =>
      let b := b ++ [delimiter] in
      e <- sendMessage b ;;
      match e with
      | Some err => removeSubscription (ID r) ;; ret (inl err, wire)
      | None =>
          got <- await res wire ;;
          removeSubscription (ID r) ;;
          ret (inr (fst got), snd got)
      end
  end.

(** ** Batches *)

(** [strings.Join] *)
Fixpoint Join (l : list string) (sep : string) : string :=
  match l with
  | [] => EmptyString
  | [x] => x
  | x :: l' => (x ++ sep ++ Join l' sep)%string
  end.

Fixpoint encodeEach (reqs : list request) : error + list string :=
  match reqs with
  | [] => inr []
  | r :: reqs' =>
      match encode r with
      | inl err => inl err
      | inr x =>
          match encodeEach reqs' with
          | inl err => inl err
          | inr l => inr (string_of_list_ascii x :: l)
          end
      end
  end.

(** [func encodeBatch(reqs []*request) ([]byte, error)] *)
Definition encodeBatch (reqs : list request) : error + bytes :=
  match encodeEach reqs with
  | inl err => inl err
  | inr reqsJson =>
      inr (list_ascii_of_string (arrayStart ++ Join reqsJson comma ++ arrayEnd)%string)
  end.

(** The registration loop of [syncBatchRequest]. *)
Fixpoint registerBatch (res : chan) (i : nat) (reqs : list request)
    (reqMap : gmap Z nat) : M (gmap Z nat) :=
  match reqs with
  | [] => ret reqMap
  | r :: reqs' =>
      modify (fun c =>
        set_subs (<[ID r := mk_subscription EmptyString None res None None]> (subs c)) c) ;;
      registerBatch res (S i) reqs' (<[ID r := i]> reqMap)
  end.

(** One iteration of [for resp := range res]. *)
Definition collect (res : chan) (reqMap : gmap Z nat) (n : nat) (resp : response)
    (respCount : nat) (responses : list (option response))
  : M (nat * list (option response)) :=
  Lock ;;
  modify (fun c => set_subs (delete (resp_ID resp) (subs c)) c) ;;
  Unlock ;;
  let i := default 0%nat (reqMap !! resp_ID resp) in
  if Nat.ltb i (length responses) then
    let responses' := <[i := Some resp]> responses in
    let respCount' := S respCount in
    (if Nat.eqb respCount' n then close_chan res else ret tt) ;;
    ret (respCount', responses')
  else throw IndexOutOfRange.

(** [for resp := range res { ... }]: the loop ends when [res] is closed. *)
Fixpoint collectAll (res : chan) (reqMap : gmap Z nat) (n : nat)
    (respCount : nat) (responses : list (option response)) (wire : list event)
  : M (list (option response) * list event) :=
  fun c =>
    if decide (res ∈ closed_chans c) then Done (responses, wire) c
    else
      match wire with
      | [] => Blocks (OnRecv res)
      | ev :: wire' =>
          match handleMessages ev c with
          | Done ds c' =>
              match inbox res ds with
              | [] => collectAll res reqMap n respCount responses wire' c'
              | [resp] =>
                  match collect res reqMap n resp respCount responses c' with
                  | Done st c'' => collectAll res reqMap n (fst st) (snd st) wire' c''
                  | Panics p => Panics p
                  | Blocks b => Blocks b
                  end
              | _ => Blocks (OnSend res)
              end
          | Panics p => Panics p
          | Blocks b => Blocks b
          end
      end.

(** [func (c *Client) syncBatchRequest(reqs []*request)], returning a
    [[]*response] and an [error]. *)
Definition syncBatchRequest (reqs : list request) (wire : list event)
  : M ((error + list (option response)) * list event) :=
  res <- make_chan ;;
  Lock ;;
  reqMap <- registerBatch res 0 reqs ∅ ;;
  Unlock ;;
  match encodeBatch reqs with
  | inl err => ret (inl err, wire)
  | inr b =>
      let b := b ++ [delimiter] in
      e <- sendMessage b ;;
      match e with
      | Some err => ret (inl err, wire)
      | None =>
          got <- collectAll res reqMap (length reqs) 0
                   (replicate (length reqs) None) wire ;;
          ret (inr (fst got), snd got)
      end
  end.

(** ** Close *)

Definition close_done : M unit :=
  fun c => if done c then Panics CloseOfClosedChannel else Done tt (set_done true c).

(** [func (c *Client) Close()] *)
Definition Close : M unit :=
  transport_close ;;
  close_done.

(** ** Method wrappers used by the session core *)

Record VersionInfo : Type := mk_VersionInfo {
  Software : string;
  Protocol_ : string
}.

Definition Protocol10 : string := "1.0".
Definition Protocol11 : string := "1.1".
Definition Protocol12 : string := "1.2".
Definition Protocol14 : string := "1.4".
Definition Protocol14_2 : string := "1.4.2".

(** [json.Marshal(res.Result)] followed by [json.Unmarshal(b, &d)] with
    [d []string]: null leaves [d] nil, an array of strings fills it (a
    null element leaves the empty string), anything else is an error. *)
Fixpoint strings_of (l : list json) : option (list string) :=
  match l with
  | [] => Some []
  | JString s :: l' => option_map (cons s) (strings_of l')
  | JNull :: l' => option_map (cons EmptyString) (strings_of l')
  | _ :: _ => None
  end.

Definition decode_strings (v : json) : error + list string :=
  match v with
  | JNull => inr []
  | JArray l =>
      match strings_of l with
      | Some d => inr d
      | None => inl ErrUnmarshal
      end
  | _ => inl ErrUnmarshal
  end.

(** [func (c *Client) ServerVersion()] *)
Definition ServerVersion (wire : list event)
  : M ((error + VersionInfo) * list event) :=
  ag <- get agent ;;
  proto <- get Protocol ;;
  r <- req "server.version" (Some [Str ag; Str proto]) ;;
  got <- syncRequest r wire ;;
  match fst got with
  | inl err => ret (inl err, snd got)
  | inr None => throw NilDereference
  | inr (Some res) =>
      match resp_Error res with
      | Some e => ret (inl (ErrNew (Message e)), snd got)
      | None =>
          if String.eqb proto Protocol10 then
            match resp_Result res with
            | JString s => ret (inr (mk_VersionInfo s EmptyString), snd got)
            | _ => throw TypeAssertion
            end
          else if String.eqb proto Protocol11 || String.eqb proto Protocol12
                  || String.eqb proto Protocol14 || String.eqb proto Protocol14_2
          then
            match decode_strings (resp_Result res) with
            | inl err => ret (inl err, snd got)
            | inr (d0 :: d1 :: _) => ret (inr (mk_VersionInfo d0 d1), snd got)
            | inr _ => throw IndexOutOfRange
            end
          else ret (inr (mk_VersionInfo EmptyString EmptyString), snd got)
      end
  end.

(** [strings.Contains] *)
Fixpoint Contains (s substr : string) : bool :=
  String.prefix substr s
  || match s with
     | EmptyString => false
     | String _ s' => Contains s' substr
     end.

(** [func (c *Client) BroadcastTransaction(hex string) (string, error)] *)
Definition BroadcastTransaction (hex : string) (wire : list event)
  : M ((string * option error) * list event) :=
  r <- req "blockchain.transaction.broadcast" (Some [Str hex]) ;;
  got <- syncRequest r wire ;;
  match fst got with
  | inl err => ret ((EmptyString, Some err), snd got)
  | inr None => throw NilDereference
  | inr (Some res) =>
      match resp_Result res with
      | JNull => ret ((EmptyString, Some ErrRejectedTx), snd got)
      | JString s =>
          if Contains s "rejected"
          then ret ((EmptyString, Some ErrRejectedTx), snd got)
          else ret ((s, None), snd got)
      | _ => throw TypeAssertion
      end
  end.

(** ** Resuming subscriptions *)

(** The case the [select] of the wait loop takes in each round. *)
Inductive ready : Type :=
| Tick
| ResumingDone
| BgDone.

(** The loop labelled WAIT: [true] when it was left through [break]. *)
Fixpoint waitResponsive (sel : list ready) (wire : list event)
  : M (bool * list event) :=
  match sel with
  | [] => park OnSelect
  | Tick :: sel' =>
      got <- ServerVersion wire ;;
      match fst got with
      | inr _ => ret (true, snd got)
      | inl _ => waitResponsive sel' (snd got)
      end
  | ResumingDone :: _ => ret (false, wire)
  | BgDone :: _ => ret (false, wire)
  end.

(** The loop over [c.subs]. Go may or may not produce the entries the
    body adds during the iteration; the model iterates the entries
    present when the loop starts. *)
Fixpoint restartAll (l : list (Z * subscription)) : M unit :=
  match l with
  | [] => ret tt
  | (id, sub) :: l' =>
      removeSubscription id ;;
      ch <- make_chan ;;
      let sub' := mk_subscription (method sub) (params sub) ch (handler sub) (ctx sub) in
      _ <- startSubscription sub' ;;
      restartAll l'
  end.

(** [c.stopResuming()] on the previous attempt, then
    [c.resuming, c.stopResuming = context.WithCancel(...)]. *)
Definition renewResuming : M unit :=
  modify (fun c =>
    match resuming c with
    | Some g => set_resuming (Some (S g)) ({[g]} ∪ resumes_cancelled c) c
    | None => set_resuming (Some 0%nat) (resumes_cancelled c) c
    end).

(** [func (c *Client) resumeSubscriptions()] *)
Definition resumeSubscriptions (sel : list ready) (wire : list event) : M unit :=
  Lock ;;
  renewResuming ;;
  w <- waitResponsive sel wire ;;
  if fst w then
    m <- get subs ;;
    restartAll (map_to_list m) ;;
    Unlock
  else Unlock.

(** ** New *)

Record Options : Type := mk_Options {
  opt_Address : string;
  opt_Version : string;
  opt_Protocol : string;
  opt_KeepAlive : bool;
  opt_Agent : string
}.

Definition or_default (s d : string) : string :=
  if String.eqb s EmptyString then d else s.

(** [func New(options *Options)], on the transport [getTransport] returned. *)
Definition New (options : Options) (t : transport_t) : Client :=
  let version := or_default (opt_Version options) "0.5.0" in
  let protocol := or_default (opt_Protocol options) Protocol14_2 in
  let ag := or_default (opt_Agent options) "fairbank-electrum" in
  {| Address := opt_Address options;
     Version := version;
     Protocol := protocol;
     done := false;
     transport := t;
     counter := 0;
     subs := ∅;
     agent := (ag ++ "-" ++ version)%string;
     bgProcessing := false;
     resuming := None;
     resumes_cancelled := ∅;
     mu := false;
     closed_chans := ∅;
     next_chan := 0%nat |}.

(** One tick of the keep-alive goroutine of [New]. *)
Definition keepAlive : M unit :=
  v <- get Version ;;
  proto <- get Protocol ;;
  r <- req "server.version" (Some [Str v; Str proto]) ;;
  match encode r with
  | inr b => _ <- sendMessage b ;; ret tt
  | inl _ => ret tt
  end.

(** One round of the goroutine of [New] that monitors the transport
    state. *)
Definition monitor (s : State) (sel : list ready) (wire : list event) : M unit :=
  Lock ;;
  count <- get (fun c => size (subs c)) ;;
  Unlock ;;
  match s with
  | Reconnected =>
      if Nat.ltb 0 count then resumeSubscriptions sel wire else ret tt
  | _ => ret tt
  end.

(** * Decoding

    [json.Unmarshal] of the Go standard library, into the generic tree
    first and from there into a [response]. Numbers with a fraction or an
    exponent are outside the fragment modelled here. *)

Inductive parsed (A : Type) : Type :=
| Parsed (a : A) (rest : bytes)
| Invalid
| Unmodelled.

Arguments Parsed {A} a rest.
Arguments Invalid {A}.
Arguments Unmodelled {A}.

Definition is_ws (b : ascii) : bool :=
  Ascii.eqb b " "%char || Ascii.eqb b "009"%char
  || Ascii.eqb b "010"%char || Ascii.eqb b "013"%char.

Fixpoint skip_ws (s : bytes) : bytes :=
  match s with
  | b :: t => if is_ws b then skip_ws t else s
  | [] => []
  end.

Definition is_digit (b : ascii) : bool :=
  ((48 <=? byte_val b) && (byte_val b <=? 57))%N.

Fixpoint span_digits (s : bytes) : bytes * bytes :=
  match s with
  | b :: t =>
      if is_digit b then let (ds, rest) := span_digits t in (b :: ds, rest)
      else ([], s)
  | [] => ([], [])
  end.

Definition split_sign (s : bytes) : bytes * bytes :=
  match s with
  | b :: t => if Ascii.eqb b "-"%char then ([b], t) else ([], s)
  | [] => ([], s)
  end.

Definition leading_zero (ds : bytes) : bool :=
  match ds with
  | d :: ds' => Ascii.eqb d "0"%char && negb (Nat.eqb (length ds') 0)
  | [] => false
  end.

Definition fraction_follows (rest : bytes) : bool :=
  match rest with
  | b :: _ => Ascii.eqb b "."%char || Ascii.eqb b "e"%char || Ascii.eqb b "E"%char
  | [] => false
  end.

Definition finish_number (sign ds rest : bytes) : parsed json :=
  match NilZero.int_of_string (string_of_list_ascii (sign ++ ds)) with
  | Some n => Parsed (JNumber (Z.of_int n) 0) rest
  | None => Invalid
  end.

(** A number literal without fraction and exponent, kept exact. *)
Definition parse_number (s : bytes) : parsed json :=
  let (sign, s1) := split_sign s in
  let (ds, rest) := span_digits s1 in
  if Nat.eqb (length ds) 0 then Invalid
  else if leading_zero ds then Invalid
  else if fraction_follows rest then Unmodelled
  else finish_number sign ds rest.

Definition hex_val (b : ascii) : option N :=
  let n := byte_val b in
  if ((48 <=? n) && (n <=? 57))%N then Some (n - 48)%N
  else if ((97 <=? n) && (n <=? 102))%N then Some (n - 87)%N
  else if ((65 <=? n) && (n <=? 70))%N then Some (n - 55)%N
  else None.

(** [getu4] without the leading backslash and u: four hex digits. *)
Definition hex4 (s : bytes) : option (N * bytes) :=
  match s with
  | a :: b :: c :: d :: t =>
      match hex_val a, hex_val b, hex_val c, hex_val d with
      | Some x, Some y, Some z, Some w => Some (((x * 16 + y) * 16 + z) * 16 + w, t)%N
      | _, _, _, _ => None
      end
  | _ => None
  end.

Definition byte_of (n : N) : ascii := ascii_of_N n.

Definition replacement : bytes := [byte_of 239; byte_of 191; byte_of 189].

(** [utf8.AppendRune] *)
Definition utf8_encode (r : N) : bytes :=
  if (r <? 128)%N then [byte_of r]
  else if (r <? 2048)%N then [byte_of (192 + r / 64); byte_of (128 + r mod 64)]
  else if ((55296 <=? r) && (r <=? 57343))%N then replacement
  else if (r <? 65536)%N then
    [byte_of (224 + r / 4096); byte_of (128 + (r / 64) mod 64); byte_of (128 + r mod 64)]
  else if (r <? 1114112)%N then
    [byte_of (240 + r / 262144); byte_of (128 + (r / 4096) mod 64);
     byte_of (128 + (r / 64) mod 64); byte_of (128 + r mod 64)]
  else replacement.

Definition is_surrogate (r : N) : bool := ((55296 <=? r) && (r <? 57344))%N.

(** [utf16.DecodeRune] on a valid pair. *)
Definition surrogate_pair (r1 r2 : N) : option N :=
  if ((55296 <=? r1) && (r1 <? 56320) && (56320 <=? r2) && (r2 <? 57344))%N
  then Some ((r1 - 55296) * 1024 + (r2 - 56320) + 65536)%N
  else None.

Definition simple_escape (e : ascii) : option ascii :=
  if Ascii.eqb e dquote then Some dquote
  else if Ascii.eqb e backslash then Some backslash
  else if Ascii.eqb e "/"%char then Some "/"%char
  else if Ascii.eqb e "b"%char then Some "008"%char
  else if Ascii.eqb e "f"%char then Some "012"%char
  else if Ascii.eqb e "n"%char then Some "010"%char
  else if Ascii.eqb e "r"%char then Some "013"%char
  else if Ascii.eqb e "t"%char then Some "009"%char
  else None.

Definition prepend (p : bytes) (r : parsed bytes) : parsed bytes :=
  match r with
  | Parsed a rest => Parsed (p ++ a) rest
  | Invalid => Invalid
  | Unmodelled => Unmodelled
  end.

(** The string literal after its opening quote: the scanner's checks and
    [unquote]. *)
Fixpoint unquote (fuel : nat) (s : bytes) : parsed bytes :=
  match fuel with
  | O => Invalid
  | S f =>
      match s with
      | [] => Invalid
      | b :: t =>
          if Ascii.eqb b dquote then Parsed [] t
          else if Ascii.eqb b backslash then
            match t with
            | [] => Invalid
            | e :: t' =>
                if Ascii.eqb e "u"%char then
                  match hex4 t' with
                  | None => Invalid
                  | Some (r, t'') =>
                      if is_surrogate r then
                        match t'' with
                        | b1 :: e1 :: t3 =>
                            if Ascii.eqb b1 backslash && Ascii.eqb e1 "u"%char then
                              match hex4 t3 with
                              | Some (r2, t4) =>
                                  match surrogate_pair r r2 with
                                  | Some dec => prepend (utf8_encode dec) (unquote f t4)
                                  | None => prepend replacement (unquote f t'')
                                  end
                              | None => prepend replacement (unquote f t'')
                              end
                            else prepend replacement (unquote f t'')
                        | _ => prepend replacement (unquote f t'')
                        end
                      else prepend (utf8_encode r) (unquote f t'')
                  end
                else
                  match simple_escape e with
                  | Some c => prepend [c] (unquote f t')
                  | None => Invalid
                  end
            end
          else if (byte_val b <? 32)%N then Invalid
          else if (byte_val b <? 128)%N then prepend [b] (unquote f t)
          else
            match rune_len s with
            | Some n => prepend (firstn n s) (unquote f (skipn n s))
            | None => prepend replacement (unquote f t)
            end
      end
  end.

Definition maxNestingDepth : nat := 10000.

Definition starts (p : string) (s : bytes) : option bytes :=
  let l := lit p in
  if decide (firstn (length l) s = l) then Some (skipn (length l) s)
  else None.

(** A value, with [depth] containers open around it. The input starts at
    the first byte of the value. *)
Fixpoint parse_value (fuel depth : nat) (s : bytes) : parsed json :=
  match fuel with
  | O => Invalid
  | S f =>
      match s with
      | [] => Invalid
      | b :: t =>
          if Ascii.eqb b dquote then
            match unquote (S (length t)) t with
            | Parsed str rest => Parsed (JString (string_of_list_ascii str)) rest
            | Invalid => Invalid
            | Unmodelled => Unmodelled
            end
          else if Ascii.eqb b "["%char then
            if Nat.leb maxNestingDepth depth then Invalid
            else
              match skip_ws t with
              | b' :: t' =>
                  if Ascii.eqb b' "]"%char then Parsed (JArray []) t'
                  else parse_elems f (S depth) (b' :: t') []
              | [] => Invalid
              end
          else if Ascii.eqb b "{"%char then
            if Nat.leb maxNestingDepth depth then Invalid
            else
              match skip_ws t with
              | b' :: t' =>
                  if Ascii.eqb b' "}"%char then Parsed (JObject []) t'
                  else parse_members f (S depth) (b' :: t') []
              | [] => Invalid
              end
          else if Ascii.eqb b "-"%char || is_digit b then parse_number s
          else
            match starts "null" s, starts "true" s, starts "false" s with
            | Some rest, _, _ => Parsed JNull rest
            | _, Some rest, _ => Parsed (JBool true) rest
            | _, _, Some rest => Parsed (JBool false) rest
            | _, _, _ => Invalid
            end
      end
  end

with parse_elems (fuel depth : nat) (s : bytes) (acc : list json) : parsed json :=
  match fuel with
  | O => Invalid
  | S f =>
      match parse_value f depth s with
      | Parsed v rest =>
          match skip_ws rest with
          | b :: t =>
              if Ascii.eqb b ","%char then parse_elems f depth (skip_ws t) (v :: acc)
              else if Ascii.eqb b "]"%char then Parsed (JArray (rev (v :: acc))) t
              else Invalid
          | [] => Invalid
          end
      | Invalid => Invalid
      | Unmodelled => Unmodelled
      end
  end

with parse_members (fuel depth : nat) (s : bytes) (acc : list (string * json))
  : parsed json :=
  match fuel with
  | O => Invalid
  | S f =>
      match s with
      | b :: t =>
          if Ascii.eqb b dquote then
            match unquote (S (length t)) t with
            | Parsed k rest =>
                match skip_ws rest with
                | b1 :: t1 =>
                    if Ascii.eqb b1 ":"%char then
                      match parse_value f depth (skip_ws t1) with
                      | Parsed v rest2 =>
                          let acc' := (string_of_list_ascii k, v) :: acc in
                          match skip_ws rest2 with
                          | b2 :: t2 =>
                              if Ascii.eqb b2 ","%char
                              then parse_members f depth (skip_ws t2) acc'
                              else if Ascii.eqb b2 "}"%char
                              then Parsed (JObject (rev acc')) t2
                              else Invalid
                          | [] => Invalid
                          end
                      | Invalid => Invalid
                      | Unmodelled => Unmodelled
                      end
                    else Invalid
                | [] => Invalid
                end
            | Invalid => Invalid
            | Unmodelled => Unmodelled
            end
          else Invalid
      | [] => Invalid
      end
  end.

(** The whole input is one value between optional white space. *)
Definition parse (s : bytes) : parsed json :=
  match parse_value (S (length s)) 0 (skip_ws s) with
  | Parsed v rest =>
      match skip_ws rest with
      | [] => Parsed v []
      | _ :: _ => Invalid
      end
  | Invalid => Invalid
  | Unmodelled => Unmodelled
  end.

(** The float64 nearest to an integer (ties to even), as the pair
    [(m, e)] of the value [m * 2 ^ e]; [None] when it is out of range. *)
Definition float64_of_Z (n : Z) : option (Z * Z) :=
  let a := Z.abs n in
  let k := Z.log2 a in
  if k <=? 52 then Some (n, 0)
  else
    let sh := k - 52 in
    let q := Z.shiftr a sh in
    let r := a - Z.shiftl q sh in
    let half := Z.shiftl 1 (sh - 1) in
    let q' := if (half <? r) || ((r =? half) && Z.odd q) then q + 1 else q in
    if 2 ^ 1024 <=? q' * 2 ^ sh then None
    else Some (Z.sgn n * q', sh).

(** [m[k] = v] on a map kept as a list of its entries. *)
Fixpoint assoc_set (k : string) (v : json) (l : list (string * json))
  : list (string * json) :=
  match l with
  | [] => [(k, v)]
  | (k', v') :: l' =>
      if String.eqb k k' then (k, v) :: l' else (k', v') :: assoc_set k v l'
  end.

(** The value stored for a tree decoded into an [interface{}]: numbers
    become float64, objects become maps. *)
Fixpoint as_interface (t : json) : option json :=
  match t with
  | JNumber m e =>
      if e =? 0 then
        match float64_of_Z m with
        | Some (m', e') => Some (JNumber m' e')
        | None => None
        end
      else Some t
  | JArray l =>
      let fix each (l : list json) : option (list json) :=
        match l with
        | [] => Some []
        | x :: l' =>
            match as_interface x, each l' with
            | Some a, Some b => Some (a :: b)
            | _, _ => None
            end
        end in
      option_map JArray (each l)
  | JObject kv =>
      let fix each (kv : list (string * json)) (acc : list (string * json))
        : option (list (string * json)) :=
        match kv with
        | [] => Some acc
        | (k, x) :: kv' =>
            match as_interface x with
            | Some a => each kv' (assoc_set k a acc)
            | None => None
            end
        end in
      option_map JObject (each kv [])
  | _ => Some t
  end.

Inductive decoded (A : Type) : Type :=
| Decoded (a : A)
| Malformed
| NotModelled.

Arguments Decoded {A} a.
Arguments Malformed {A}.
Arguments NotModelled {A}.

Definition lower (b : ascii) : ascii :=
  if ((65 <=? byte_val b) && (byte_val b <=? 90))%N
  then byte_of (byte_val b + 32) else b.

(** The name a key is matched under: an exact match or, failing that, a
    case-insensitive one. Keys with bytes outside ASCII are left to
    [NotModelled] (the folds of the encoding/json package reach beyond
    ASCII). *)
Definition fold_key (k : string) : option string :=
  let l := list_ascii_of_string k in
  if forallb (fun b => (byte_val b <? 128)%N) l
  then Some (string_of_list_ascii (map lower l))
  else None.

Definition in_int64 (n : Z) : bool := (GoInt.minInt <=? n) && (n <=? GoInt.maxInt).

Definition zero_error : rpcError := mk_rpcError 0 EmptyString None.

Definition set_error_field (e : rpcError) (k : string) (v : json) : decoded rpcError :=
  match fold_key k with
  | None => NotModelled
  | Some name =>
      if String.eqb name "code" then
        match v with
        | JNull => Decoded e
        | JNumber n _ =>
            if in_int64 n then Decoded (mk_rpcError n (Message e) (Data e))
            else Malformed
        | _ => Malformed
        end
      else if String.eqb name "message" then
        match v with
        | JNull => Decoded e
        | JString s => Decoded (mk_rpcError (Code e) s (Data e))
        | _ => Malformed
        end
      else if String.eqb name "data" then
        match v with
        | JNull => Decoded (mk_rpcError (Code e) (Message e) None)
        | JObject kv =>
            match as_interface (JObject (default [] (Data e) ++ kv)) with
            | Some (JObject m) => Decoded (mk_rpcError (Code e) (Message e) (Some m))
            | _ => Malformed
            end
        | _ => Malformed
        end
      else Decoded e
  end.

Fixpoint set_error_fields (e : rpcError) (kv : list (string * json)) : decoded rpcError :=
  match kv with
  | [] => Decoded e
  | (k, v) :: kv' =>
      match set_error_field e k v with
      | Decoded e' => set_error_fields e' kv'
      | Malformed => Malformed
      | NotModelled => NotModelled
      end
  end.

Definition zero_response : response :=
  mk_response EmptyString 0 EmptyString JNull JNull None.

(** One member of the object decoded into a [*response], by the tags of
    the struct. *)
Definition set_field (r : response) (k : string) (v : json) : decoded response :=
  match fold_key k with
  | None => NotModelled
  | Some name =>
      if String.eqb name "jsonrpc" then
        match v with
        | JNull => Decoded r
        | JString s =>
            Decoded (mk_response s (resp_ID r) (resp_Method r) (resp_Params r)
                       (resp_Result r) (resp_Error r))
        | _ => Malformed
        end
      else if String.eqb name "id" then
        match v with
        | JNull => Decoded r
        | JNumber n _ =>
            if in_int64 n
            then Decoded (mk_response (resp_RPC r) n (resp_Method r) (resp_Params r)
                            (resp_Result r) (resp_Error r))
            else Malformed
        | _ => Malformed
        end
      else if String.eqb name "method" then
        match v with
        | JNull => Decoded r
        | JString s =>
            Decoded (mk_response (resp_RPC r) (resp_ID r) s (resp_Params r)
                       (resp_Result r) (resp_Error r))
        | _ => Malformed
        end
      else if String.eqb name "params" then
        match as_interface v with
        | Some v' =>
            Decoded (mk_response (resp_RPC r) (resp_ID r) (resp_Method r) v'
                       (resp_Result r) (resp_Error r))
        | None => Malformed
        end
      else if String.eqb name "result" then
        match as_interface v with
        | Some v' =>
            Decoded (mk_response (resp_RPC r) (resp_ID r) (resp_Method r)
                       (resp_Params r) v' (resp_Error r))
        | None => Malformed
        end
      else if String.eqb name "error" then
        match v with
        | JNull =>
            Decoded (mk_response (resp_RPC r) (resp_ID r) (resp_Method r)
                       (resp_Params r) (resp_Result r) None)
        | JObject kv =>
            match set_error_fields (default zero_error (resp_Error r)) kv with
            | Decoded e =>
                Decoded (mk_response (resp_RPC r) (resp_ID r) (resp_Method r)
                           (resp_Params r) (resp_Result r) (Some e))
            | Malformed => Malformed
            | NotModelled => NotModelled
            end
        | _ => Malformed
        end
      else Decoded r
  end.

Fixpoint set_fields (r : response) (kv : list (string * json)) : decoded response :=
  match kv with
  | [] => Decoded r
  | (k, v) :: kv' =>
      match set_field r k v with
      | Decoded r' => set_fields r' kv'
      | Malformed => Malformed
      | NotModelled => NotModelled
      end
  end.

(** [json.Unmarshal(m, resp)] with [resp] a fresh [*response]. *)
Definition Unmarshal_response (m : bytes) : decoded response :=
  match parse m with
  | Parsed (JObject kv) _ => set_fields zero_response kv
  | Parsed JNull _ => Decoded zero_response
  | Parsed _ _ => Malformed
  | Invalid => Malformed
  | Unmodelled => NotModelled
  end.

(** * Properties *)

(** ** Integers in range do not wrap *)

Lemma wrap_small z : GoInt.minInt <= z <= GoInt.maxInt -> GoInt.wrap z = z.
Proof.
  unfold GoInt.wrap, GoInt.minInt, GoInt.maxInt. intros Hz.
  rewrite Z.mod_small by lia. lia.
Qed.

Lemma incr_small z : GoInt.minInt <= z < GoInt.maxInt -> GoInt.incr z = z + 1.
Proof. intros Hz. unfold GoInt.incr. apply wrap_small. lia. Qed.

(** ** The state after the primitive steps *)

Lemma set_mu_unlocked c : mu c = false -> set_mu false c = c.
Proof. destruct c; simpl; intros ->; reflexivity. Qed.


Lemma Lock_free c : mu c = false -> Lock c = Done tt (set_mu true c).
Proof. unfold Lock. intros ->. reflexivity. Qed.

Lemma Lock_held c : mu c = true -> Lock c = Blocks OnMutex.
Proof. unfold Lock. intros ->. reflexivity. Qed.

(** The parameters [req] stores: never a nil slice. *)
Definition orEmpty (ps : slice_any) : slice_any :=
  if Nat.eqb (len_slice ps) 0 then Some [] else ps.

Lemma req_free name ps c :
  mu c = false ->
  req name ps c =
    Done (mk_request EmptyString (counter c) name (orEmpty ps))
         (set_counter (GoInt.incr (counter c)) c).
Proof.
  intros Hmu. unfold req, bind, get, modify, ret, Unlock, Lock.
  rewrite Hmu. simpl. f_equal.
  destruct c; simpl in *; subst; reflexivity.
Qed.

Lemma req_held name ps c : mu c = true -> req name ps c = Blocks OnMutex.
Proof. intros Hmu. unfold req, bind. rewrite Lock_held by exact Hmu. reflexivity. Qed.

(** ** Request ids (C6) *)

(** The places where the client allocates an id, each through [req] with
    the arguments of that path: a synchronous call, a batch
    ([batchReq]), the registration of a subscription
    ([startSubscription]) and a keep-alive tick. *)
Inductive site : Type :=
| BySync (name : string) (ps : slice_any)
| ByBatch (name : string) (pss : list slice_any)
| BySubscribe (sub : subscription)
| ByKeepAlive.

Definition demand (s : site) : nat :=
  match s with
  | ByBatch _ pss => length pss
  | _ => 1%nat
  end.

Definition allocate (s : site) : M (list Z) :=
  match s with
  | BySync name ps => r <- req name ps ;; ret [ID r]
  | ByBatch name pss => rs <- batchReq name pss ;; ret (map ID rs)
  | BySubscribe sub => r <- req (method sub) (params sub) ;; ret [ID r]
  | ByKeepAlive =>
      v <- get Version ;;
      proto <- get Protocol ;;
      r <- req "server.version" (Some [Str v; Str proto]) ;;
      ret [ID r]
  end.

Fixpoint allocateAll (l : list site) : M (list Z) :=
  match l with
  | [] => ret []
  | s :: l' =>
      ids <- allocate s ;;
      ids' <- allocateAll l' ;;
      ret (ids ++ ids')
  end.

Definition demandAll (l : list site) : nat := list_sum (map demand l).

(** The ids [from], [from + 1], ..., [from + n - 1]. *)
Definition ids_from (from : Z) (n : nat) : list Z :=
  map (fun i => from + Z.of_nat i) (seq 0 n).

Lemma ids_from_S from n : ids_from from (S n) = from :: ids_from (from + 1) n.
Proof.
  unfold ids_from. simpl. rewrite Z.add_0_r. f_equal.
  rewrite <- seq_shift, map_map. apply map_ext. intros i. lia.
Qed.

Lemma ids_from_app from n m :
  ids_from from (n + m) = ids_from from n ++ ids_from (from + Z.of_nat n) m.
Proof.
  revert from. induction n as [|n IH]; intros from.
  - simpl. rewrite Z.add_0_r. reflexivity.
  - replace (S n + m)%nat with (S (n + m)) by lia.
    rewrite !ids_from_S, IH. simpl. do 3 f_equal. lia.
Qed.

Lemma ids_from_lookup from n i :
  (i < n)%nat -> ids_from from n !! i = Some (from + Z.of_nat i).
Proof.
  intros Hi. unfold ids_from. rewrite list_lookup_fmap.
  rewrite lookup_seq_lt by exact Hi. reflexivity.
Qed.

Lemma ids_from_length from n : length (ids_from from n) = n.
Proof. unfold ids_from. rewrite length_map, length_seq. reflexivity. Qed.

Lemma batchReq_free name pss : forall c,
  mu c = false ->
  0 <= counter c ->
  counter c + Z.of_nat (length pss) <= GoInt.maxInt ->
  exists rs c',
    batchReq name pss c = Done rs c'
    /\ map ID rs = ids_from (counter c) (length pss)
    /\ map Method rs = map (fun _ => name) pss
    /\ map Params rs = map orEmpty pss
    /\ counter c' = counter c + Z.of_nat (length pss)
    /\ c' = set_counter (counter c') c.
Proof.
  induction pss as [|p pss IH]; intros c Hmu H0 Hmax.
  - exists [], c. simpl. repeat split; try lia.
    destruct c; reflexivity.
  - simpl in Hmax. simpl batchReq. unfold bind at 1.
    rewrite req_free by exact Hmu.
    set (c1 := set_counter (GoInt.incr (counter c)) c).
    assert (Hc1 : counter c1 = counter c + 1).
    { subst c1. simpl. apply incr_small. unfold GoInt.minInt, GoInt.maxInt in *. lia. }
    destruct (IH c1) as (rs & c' & Hrun & Hids & Hms & Hps & Hcnt & Hc').
    + subst c1. destruct c; exact Hmu.
    + lia.
    + lia.
    + exists (mk_request EmptyString (counter c) name (orEmpty p) :: rs), c'.
      unfold bind. rewrite Hrun. unfold ret. split; [reflexivity|].
      simpl length. rewrite ids_from_S. simpl map.
      rewrite Hids, Hms, Hps, Hc1. repeat split; try lia.
      rewrite Hc'. subst c1. destruct c; reflexivity.
Qed.

Lemma allocate_free s c :
  mu c = false ->
  0 <= counter c ->
  counter c + Z.of_nat (demand s) <= GoInt.maxInt ->
  exists c',
    allocate s c = Done (ids_from (counter c) (demand s)) c'
    /\ counter c' = counter c + Z.of_nat (demand s)
    /\ mu c' = false.
Proof.
  intros Hmu H0 Hmax.
  assert (Hone : forall name ps,
    counter c + 1 <= GoInt.maxInt ->
    exists c', (r <- req name ps ;; ret [ID r]) c
               = Done (ids_from (counter c) 1) c'
      /\ counter c' = counter c + 1 /\ mu c' = false).
  { intros name ps Hlt. eexists. unfold bind. rewrite req_free by exact Hmu.
    unfold ret. simpl. split; [|split].
    - unfold ids_from. simpl. rewrite Z.add_0_r. reflexivity.
    - apply incr_small. unfold GoInt.minInt, GoInt.maxInt in *. lia.
    - exact Hmu. }
  destruct s as [name ps|name pss|sub|]; simpl demand in *.
  - apply Hone. lia.
  - destruct (batchReq_free name pss c Hmu H0 Hmax)
      as (rs & c' & Hrun & Hids & _ & _ & Hcnt & Hc').
    exists c'. simpl. unfold bind. rewrite Hrun. unfold ret.
    rewrite Hids. repeat split; [exact Hcnt|].
    rewrite Hc'. destruct c; exact Hmu.
  - apply Hone. lia.
  - simpl. unfold bind at 1 2. unfold get. apply Hone. lia.
Qed.

Lemma allocateAll_free l : forall c,
  mu c = false ->
  0 <= counter c ->
  counter c + Z.of_nat (demandAll l) <= GoInt.maxInt ->
  exists c',
    allocateAll l c = Done (ids_from (counter c) (demandAll l)) c'
    /\ counter c' = counter c + Z.of_nat (demandAll l).
Proof.
  induction l as [|s l IH]; intros c Hmu H0 Hmax.
  - exists c. simpl. split; [reflexivity|]. unfold demandAll. simpl. lia.
  - unfold demandAll in *. simpl map in *. simpl list_sum in *.
    destruct (allocate_free s c Hmu H0) as (c1 & Hrun & Hcnt & Hmu1); [lia|].
    destruct (IH c1 Hmu1) as (c' & Hrun' & Hcnt'); [lia|lia|].
    exists c'. simpl. unfold bind. rewrite Hrun, Hrun'. unfold ret.
    rewrite ids_from_app, Hcnt. split; [reflexivity|lia].
Qed.

(** C6. In a session created by [New], the ids handed out by any
    sequence of allocations (synchronous calls, batch elements,
    subscription registrations, keep-alive ticks) are 0, 1, 2, ... in
    this order: each is strictly greater than all the ids allocated
    before it, so no two collide. The counter is a 64-bit [int]; the
    statement covers the first 2^63 - 1 allocations of a session. *)
Theorem ids_strictly_increasing (options : Options) (t : transport_t)
    (l : list site) :
  Z.of_nat (demandAll l) <= GoInt.maxInt ->
  exists ids c',
    allocateAll l (New options t) = Done ids c'
    /\ length ids = demandAll l
    /\ (forall i id, ids !! i = Some id -> id = Z.of_nat i)
    /\ (forall i j a b, ids !! i = Some a -> ids !! j = Some b ->
          (i < j)%nat -> a < b).
Proof.
  intros Hmax.
  destruct (allocateAll_free l (New options t)) as (c' & Hrun & _);
    [reflexivity|simpl; lia|simpl; lia|].
  simpl counter in Hrun.
  exists (ids_from 0 (demandAll l)), c'. split; [exact Hrun|].
  split; [apply ids_from_length|].
  assert (Hlook : forall i id,
    ids_from 0 (demandAll l) !! i = Some id -> id = Z.of_nat i).
  { intros i id Hi.
    assert (Hlt : (i < demandAll l)%nat).
    { apply lookup_lt_Some in Hi. rewrite ids_from_length in Hi. exact Hi. }
    rewrite ids_from_lookup in Hi by exact Hlt. injection Hi as <-. lia. }
  split; [exact Hlook|].
  intros i j a b Ha Hb Hij.
  apply Hlook in Ha. apply Hlook in Hb. lia.
Qed.

Definition sample_options : Options :=
  mk_Options "host:50002" EmptyString EmptyString true EmptyString.

Definition sample_sites : list site :=
  [BySync "server.banner" None;
   ByBatch "blockchain.transaction.get"
     [Some [Str "h1"; Bool true]; Some [Str "h2"; Bool true]];
   ByKeepAlive].

Lemma ids_strictly_increasing_witness :
  Z.of_nat (demandAll sample_sites) <= GoInt.maxInt
  /\ exists ids c',
    allocateAll sample_sites (New sample_options (mk_transport true []))
    = Done ids c'
    /\ length ids = demandAll sample_sites
    /\ (forall i id, ids !! i = Some id -> id = Z.of_nat i)
    /\ (forall i j a b, ids !! i = Some a -> ids !! j = Some b ->
          (i < j)%nat -> a < b).
Proof.
  assert (H : Z.of_nat (demandAll sample_sites) <= GoInt.maxInt)
    by (vm_compute; discriminate).
  split; [exact H|].
  exact (ids_strictly_increasing sample_options (mk_transport true [])
           sample_sites H).
Defined.

(** ** Responses for ids that are not registered (C5) *)




(** ** Close (C4) *)

(** C4, as the code has it. [Close] closes the [done] channel without a
    guard: on a session that [Close] has already closed, the second call
    panics with "close of closed channel". *)
Theorem close_twice_panics (c c1 : Client) :
  Close c = Done tt c1 ->
  Close c1 = Panics CloseOfClosedChannel.
Proof.
  unfold Close, bind, transport_close, modify, close_done. simpl.
  destruct (done c) eqn:Hd; [discriminate|].
  intros [= <-]. simpl. reflexivity.
Qed.

(** ** Resume (C7) *)

Lemma waitResponsive_held sel wire c :
  mu c = true ->
  match waitResponsive sel wire c with
  | Done w c' => fst w = false /\ c' = c
  | Panics _ => False
  | Blocks _ => True
  end.
Proof.
  intros Hmu. destruct sel as [|[| |] sel]; simpl.
  - exact I.
  - unfold bind at 1. unfold ServerVersion. unfold bind at 1 2 3. unfold get.
    rewrite req_held by exact Hmu. exact I.
  - unfold ret. auto.
  - unfold ret. auto.
Qed.

(** C7, as the code has it. [resumeSubscriptions] takes the client mutex
    and keeps it while it calls [ServerVersion], whose [req] locks the
    same mutex: the procedure parks there. It only ever returns through
    one of the [Done] cases of its wait loop, and then it has restarted
    nothing: no subscription is removed or registered anew and no id is
    allocated. *)
Theorem resume_never_restarts (sel : list ready) (wire : list event) (c : Client) :
  mu c = false ->
  match resumeSubscriptions sel wire c with
  | Done _ c' => subs c' = subs c /\ counter c' = counter c
  | Panics _ => False
  | Blocks _ => True
  end.
Proof.
  intros Hmu. unfold resumeSubscriptions.
  unfold bind at 1. rewrite Lock_free by exact Hmu.
  unfold bind at 1. unfold renewResuming, modify.
  set (c1 := match resuming (set_mu true c) with
             | Some g => _ | None => _ end).
  assert (Hc1 : mu c1 = true /\ subs c1 = subs c /\ counter c1 = counter c).
  { subst c1. simpl. destruct (resuming c); simpl; auto. }
  destruct Hc1 as (Hmu1 & Hs1 & Hn1).
  unfold bind at 1.
  pose proof (waitResponsive_held sel wire c1 Hmu1) as Hw.
  destruct (waitResponsive sel wire c1) as [w c2|p|b]; [|exact Hw|exact I].
  destruct Hw as [Hf ->]. rewrite Hf. unfold Unlock, modify. simpl.
  split; assumption.
Qed.

(** ** BroadcastTransaction (C10) *)

Lemma app_String (a : ascii) (p b : string) :
  (String a p ++ b)%string = String a (p ++ b)%string.
Proof. reflexivity. Qed.

Lemma app_Empty (b : string) : (EmptyString ++ b)%string = b.
Proof. reflexivity. Qed.

Lemma prefix_app (p s : string) :
  String.prefix p s = true <-> exists b, s = (p ++ b)%string.
Proof.
  revert s. induction p as [|a p IH]; intros s.
  - split; [intros _; exists s; reflexivity|].
    intros _. destruct s; reflexivity.
  - destruct s as [|a' s]; cbn [String.prefix].
    + split; [discriminate|]. intros [b Hb]. rewrite app_String in Hb. discriminate.
    + destruct (ascii_dec a a') as [->|Hne].
      * rewrite IH. split; intros [b Hb]; exists b.
        -- rewrite app_String. congruence.
        -- rewrite app_String in Hb. congruence.
      * split; [discriminate|]. intros [b Hb].
        rewrite app_String in Hb. congruence.
Qed.

(** [strings.Contains s substr] holds exactly when [substr] occurs in [s]. *)
Lemma Contains_spec (s sub : string) :
  Contains s sub = true <-> exists a b, s = (a ++ sub ++ b)%string.
Proof.
  induction s as [|x s IH]; cbn [Contains].
  - rewrite orb_false_r, prefix_app. split.
    + intros [b Hb]. exists EmptyString, b. exact Hb.
    + intros (a & b & Hab). destruct a as [|y a].
      * rewrite app_Empty in Hab. eauto.
      * rewrite app_String in Hab. discriminate.
  - rewrite orb_true_iff, prefix_app, IH. split.
    + intros [[b Hb]|(a & b & Hab)].
      * exists EmptyString, b. exact Hb.
      * exists (String x a), b. rewrite app_String. congruence.
    + intros (a & b & Hab). destruct a as [|y a].
      * left. rewrite app_Empty in Hab. eauto.
      * right. exists a, b. rewrite app_String in Hab. congruence.
Qed.

Definition occurs (sub s : string) : Prop :=
  exists a b, s = (a ++ sub ++ b)%string.

(** C10. [BroadcastTransaction] decides on [res.Result] alone and never
    looks at [res.Error]: when the response of the call has a nil result
    (a server error response has one), or a result string in which
    "rejected" occurs, it returns the sentinel [ErrRejectedTx] with the
    empty string; for any other result string it returns that string and
    no error. *)
Theorem broadcast_decides_on_result (hex : string) (wire w : list event)
    (c c0 c1 : Client) (r : request) (res : response) :
  req "blockchain.transaction.broadcast" (Some [Str hex]) c = Done r c0 ->
  syncRequest r wire c0 = Done (inr (Some res), w) c1 ->
  (resp_Result res = JNull ->
     BroadcastTransaction hex wire c
     = Done ((EmptyString, Some ErrRejectedTx), w) c1)
  /\ (forall s, resp_Result res = JString s -> occurs "rejected" s ->
        BroadcastTransaction hex wire c
        = Done ((EmptyString, Some ErrRejectedTx), w) c1)
  /\ (forall s, resp_Result res = JString s -> ~ occurs "rejected" s ->
        BroadcastTransaction hex wire c = Done ((s, None), w) c1).
Proof.
  intros Hreq Hsync. unfold BroadcastTransaction, bind.
  rewrite Hreq, Hsync. simpl. repeat split.
  - intros ->. reflexivity.
  - intros s -> Hocc. apply Contains_spec in Hocc. rewrite Hocc. reflexivity.
  - intros s -> Hocc.
    destruct (Contains s "rejected") eqn:Hc; [|reflexivity].
    exfalso. apply Hocc. apply Contains_spec. exact Hc.
Qed.

(** ** Batches (C2, C3) *)



(** The number of responses collected so far. *)
Fixpoint got (l : list (option response)) : nat :=
  match l with
  | [] => 0
  | Some _ :: l' => S (got l')
  | None :: l' => got l'
  end.





Lemma inbox_app ch ds1 ds2 : inbox ch (ds1 ++ ds2) = inbox ch ds1 ++ inbox ch ds2.
Proof.
  induction ds1 as [|[ch' r] ds1 IH]; simpl; [reflexivity|].
  destruct (Nat.eqb ch' ch); simpl; rewrite IH; reflexivity.
Qed.

Section BatchLoop.

Variables (base : Z) (n : nat) (res : chan) (reqMap : gmap Z nat).

Hypothesis reqMap_ok :
  forall i, (i < n)%nat -> reqMap !! (base + Z.of_nat i) = Some i.







End BatchLoop.















(** ** The properties on concrete sessions *)

Definition sample_client : Client := New sample_options (mk_transport true []).

Definition final {A} (o : outcome A) (otherwise : Client) : Client :=
  match o with
  | Done _ c => c
  | _ => otherwise
  end.

Definition result (id : Z) (v : json) : response :=
  mk_response "2.0" id EmptyString JNull v None.





(** Scenario: a batch of one whose id (0) is never answered; the only
    frame that arrives answers id 5. *)
Definition lone_request : list request :=
  [mk_request EmptyString 0 "blockchain.transaction.get" (Some [Str "h1"; Bool true])].




(** Scenario: [Close] called twice. *)
Definition closed_once : Client := final (Close sample_client) sample_client.

Lemma close_twice_counterexample :
  Close sample_client = Done tt closed_once
  /\ ~ exists c2, Close closed_once = Done tt c2.
Proof.
  split; [vm_compute; reflexivity|].
  intros [c2 H]. vm_compute in H. discriminate.
Qed.

Lemma close_twice_panics_witness :
  Close sample_client = Done tt closed_once
  /\ Close closed_once = Panics CloseOfClosedChannel.
Proof.
  assert (H : Close sample_client = Done tt closed_once) by (vm_compute; reflexivity).
  split; [exact H|]. exact (close_twice_panics sample_client closed_once H).
Defined.




(** Scenario: one subscription is active when the transport reports
    [Reconnected]; the ticker of the resume procedure fires and the server
    would answer the probe at once. *)
Definition headers_sub : subscription :=
  mk_subscription "blockchain.headers.subscribe" None 0%nat (Some 0%nat) (Some 0%nat).

Definition subscribed : Client :=
  final ((ch <- make_chan ;; startSubscription headers_sub) sample_client) sample_client.

Definition probe_reply : list event :=
  [EvResponse (result 1 (JArray [JString "ElectrumX 1.16.0"; JString "1.4"]))].

Lemma resume_never_restarts_witness :
  mu subscribed = false
  /\ subs subscribed !! 0 = Some headers_sub
  /\ resumeSubscriptions [Tick] probe_reply subscribed = Blocks OnMutex.
Proof.
  assert (Hmu : mu subscribed = false) by reflexivity.
  pose proof (resume_never_restarts [Tick] probe_reply subscribed Hmu) as H.
  split; [exact Hmu|]. split; [vm_compute; reflexivity|].
  destruct (resumeSubscriptions [Tick] probe_reply subscribed) eqn:Hrun.
  - vm_compute in Hrun. discriminate.
  - contradiction.
  - vm_compute in Hrun. symmetry. exact Hrun.
Defined.

(** Scenario: the server answers a broadcast with an error response. *)
Definition server_error : response :=
  mk_response "2.0" 0 EmptyString JNull JNull
    (Some (mk_rpcError 1 "the transaction was rejected by network rules" None)).

Definition broadcast_request : request :=
  mk_request EmptyString 0 "blockchain.transaction.broadcast" (Some [Str "0100"]).

Definition after_broadcast : Client :=
  final (syncRequest broadcast_request [EvResponse server_error]
           (set_counter 1 sample_client))
        sample_client.

Lemma broadcast_decides_on_result_witness :
  req "blockchain.transaction.broadcast" (Some [Str "0100"]) sample_client
  = Done broadcast_request (set_counter 1 sample_client)
  /\ syncRequest broadcast_request [EvResponse server_error] (set_counter 1 sample_client)
     = Done (inr (Some server_error), []) after_broadcast
  /\ BroadcastTransaction "0100" [EvResponse server_error] sample_client
     = Done ((EmptyString, Some ErrRejectedTx), []) after_broadcast.
Proof.
  assert (Hreq : req "blockchain.transaction.broadcast" (Some [Str "0100"]) sample_client
                 = Done broadcast_request (set_counter 1 sample_client))
    by (vm_compute; reflexivity).
  assert (Hsync : syncRequest broadcast_request [EvResponse server_error]
                    (set_counter 1 sample_client)
                  = Done (inr (Some server_error), []) after_broadcast)
    by (vm_compute; reflexivity).
  destruct (broadcast_decides_on_result "0100" [EvResponse server_error] []
              sample_client (set_counter 1 sample_client) after_broadcast
              broadcast_request server_error Hreq Hsync) as [Hnil _].
  split; [exact Hreq|]. split; [exact Hsync|]. apply Hnil. reflexivity.
Defined.

(** ** What reaches the transport (C1, C8) *)

(** [m] leaves the transport alone. *)
Definition quiet {A} (m : M A) : Prop :=
  forall c a c', m c = Done a c' -> transport c' = transport c.

Lemma quiet_ret {A} (a : A) : quiet (ret a).
Proof. intros c a' c' Hrun. inversion Hrun. reflexivity. Qed.

Lemma quiet_bind {A B} (m : M A) (k : A -> M B) :
  quiet m -> (forall a, quiet (k a)) -> quiet (bind m k).
Proof.
  intros Hm Hk c b c' Hrun. unfold bind in Hrun.
  destruct (m c) as [a c1| |] eqn:Hmc; try discriminate.
  rewrite (Hk a c1 b c' Hrun). apply (Hm c a c1 Hmc).
Qed.

Lemma quiet_get {A} (f : Client -> A) : quiet (get f).
Proof. intros c a c' Hrun. inversion Hrun. reflexivity. Qed.

Lemma quiet_modify (f : Client -> Client) :
  (forall c, transport (f c) = transport c) -> quiet (modify f).
Proof. intros Hf c a c' Hrun. inversion Hrun. apply Hf. Qed.

Lemma quiet_throw {A} (p : panic) : quiet (@throw A p).
Proof. intros c a c' Hrun. discriminate. Qed.

Lemma quiet_Lock : quiet Lock.
Proof. intros c a c'. unfold Lock. destruct (mu c); intros Hrun; inversion Hrun. reflexivity. Qed.

Lemma quiet_Unlock : quiet Unlock.
Proof. apply quiet_modify. reflexivity. Qed.

Lemma quiet_make_chan : quiet make_chan.
Proof. intros c a c' Hrun. inversion Hrun. reflexivity. Qed.

Lemma quiet_close_chan ch : quiet (close_chan ch).
Proof.
  intros c a c'. unfold close_chan.
  destruct (decide (ch ∈ closed_chans c)); intros Hrun; inversion Hrun. reflexivity.
Qed.

Lemma quiet_send_chan ch : quiet (send_chan ch).
Proof.
  intros c a c'. unfold send_chan.
  destruct (decide (ch ∈ closed_chans c)); intros Hrun; inversion Hrun. reflexivity.
Qed.

Create HintDb quiet.
#[local] Hint Resolve quiet_ret quiet_get quiet_throw quiet_Lock quiet_Unlock
  quiet_make_chan quiet_close_chan quiet_send_chan : quiet.

Ltac quiet_steps :=
  repeat first
    [ apply quiet_bind; [|intros ?]
    | apply quiet_modify; intros ?; reflexivity
    | solve [auto with quiet] ].

Lemma quiet_register id sub : quiet (register id sub).
Proof. unfold register. quiet_steps. Qed.

Lemma quiet_removeSubscription id : quiet (removeSubscription id).
Proof.
  unfold removeSubscription. quiet_steps.
  destruct (_ !! id); quiet_steps.
Qed.

Lemma quiet_notify resp l : quiet (notify resp l).
Proof.
  induction l as [|[id sub] l IH]; simpl; [auto with quiet|].
  destruct (String.eqb _ _); [|exact IH]. quiet_steps.
Qed.

Lemma quiet_handleResponse resp : quiet (handleResponse resp).
Proof.
  unfold handleResponse. destruct (negb _); quiet_steps.
  - apply quiet_notify.
  - destruct (_ !! _); quiet_steps.
Qed.

Lemma quiet_removeAll ids : quiet (removeAll ids).
Proof.
  induction ids as [|id ids IH]; simpl; [auto with quiet|].
  apply quiet_bind; [apply quiet_removeSubscription|intros _; exact IH].
Qed.

Lemma quiet_handleMessages ev : quiet (handleMessages ev).
Proof.
  unfold handleMessages. apply quiet_bind; [apply quiet_get|].
  intros stopped. destruct stopped; [apply quiet_ret|].
  destruct ev as [resp| |]; [apply quiet_handleResponse|apply quiet_ret|].
  apply quiet_bind; [apply quiet_get|].
  intros closed. destruct closed; [|apply quiet_ret].
  apply quiet_bind; [apply quiet_get|]. intros m.
  apply quiet_bind; [apply quiet_removeAll|]. intros _.
  apply quiet_bind; [apply quiet_modify; reflexivity|]. intros _.
  apply quiet_ret.
Qed.

Lemma quiet_await res wire : quiet (await res wire).
Proof.
  induction wire as [|ev wire IH]; intros c a c'; simpl.
  - destruct (decide (res ∈ closed_chans c)); [intros Hrun; inversion Hrun; reflexivity|discriminate].
  - destruct (decide (res ∈ closed_chans c)); [intros Hrun; inversion Hrun; reflexivity|].
    destruct (handleMessages ev c) as [ds c1| |] eqn:Hev; try discriminate.
    pose proof (quiet_handleMessages ev c ds c1 Hev) as Ht.
    destruct (inbox res ds) as [|r [|r' l]]; try discriminate.
    + intros Hrun. rewrite (IH c1 a c' Hrun). exact Ht.
    + intros Hrun. inversion Hrun. subst. exact Ht.
Qed.

Lemma quiet_collect res reqMap n resp k responses :
  quiet (collect res reqMap n resp k responses).
Proof.
  unfold collect. quiet_steps.
  destruct (Nat.ltb _ _); [|auto with quiet]. quiet_steps.
  destruct (Nat.eqb _ _); auto with quiet.
Qed.

Lemma quiet_collectAll res reqMap n wire : forall k responses,
  quiet (collectAll res reqMap n k responses wire).
Proof.
  induction wire as [|ev wire IH]; intros k responses c a c'; simpl.
  - destruct (decide (res ∈ closed_chans c)); [intros Hrun; inversion Hrun; reflexivity|discriminate].
  - destruct (decide (res ∈ closed_chans c)); [intros Hrun; inversion Hrun; reflexivity|].
    destruct (handleMessages ev c) as [ds c1| |] eqn:Hev; try discriminate.
    pose proof (quiet_handleMessages ev c ds c1 Hev) as Ht.
    destruct (inbox res ds) as [|r [|r' l]]; try discriminate.
    + intros Hrun. rewrite (IH _ _ c1 a c' Hrun). exact Ht.
    + destruct (collect res reqMap n r k responses c1) as [st c2| |] eqn:Hcol;
        try discriminate.
      pose proof (quiet_collect _ _ _ _ _ _ c1 st c2 Hcol) as Ht2.
      intros Hrun. rewrite (IH _ _ c2 a c' Hrun). congruence.
Qed.

Lemma quiet_registerBatch res : forall rs i reqMap,
  quiet (registerBatch res i rs reqMap).
Proof.
  induction rs as [|r rs IH]; intros i reqMap; simpl; [auto with quiet|].
  apply quiet_bind; [apply quiet_modify; reflexivity|intros _; apply IH].
Qed.

Lemma quiet_req name ps : quiet (req name ps).
Proof. unfold req. quiet_steps. Qed.

(** [sendMessage] on an open transport appends the frame. *)
Lemma sendMessage_open b c :
  t_open (transport c) = true ->
  sendMessage b c =
    Done None (set_transport (mk_transport true (t_sent (transport c) ++ [b])) c).
Proof. intros Ht. unfold sendMessage. rewrite Ht. reflexivity. Qed.

(** The elements of an array, as [marshal_any] writes them between the
    brackets. *)
Fixpoint marshal_elems (first : bool) (l : list any) : option bytes :=
  match l with
  | [] => Some []
  | x :: l' =>
      match marshal_any x, marshal_elems false l' with
      | Some bx, Some bl => Some ((if first then [] else lit ",") ++ bx ++ bl)
      | _, _ => None
      end
  end.

Lemma marshal_any_Slice l :
  marshal_any (Slice l) =
    match marshal_elems true l with
    | Some body => Some (lit "[" ++ body ++ lit "]")
    | None => None
    end.
Proof. reflexivity. Qed.

(** The object [encode] writes for a request built by [req]. *)
Definition request_object (id : Z) (name : string) (body : bytes) : bytes :=
  lit "{" ++ field "jsonrpc" ++ appendString "2.0"
  ++ lit "," ++ field "id" ++ appendInt id
  ++ lit "," ++ field "method" ++ appendString name
  ++ lit "," ++ field "params" ++ (lit "[" ++ body ++ lit "]") ++ lit "}".

Lemma orEmpty_default ps : orEmpty ps = Some (default [] ps).
Proof. destruct ps as [[|x l]|]; reflexivity. Qed.

Lemma encode_req id name ps b :
  encode (mk_request EmptyString id name (orEmpty ps)) = inr b ->
  exists body,
    marshal_elems true (default [] ps) = Some body
    /\ b = request_object id name body ++ [delimiter].
Proof.
  unfold encode, with_RPC, marshal_request. simpl.
  rewrite orEmpty_default. unfold marshal_slice. rewrite marshal_any_Slice.
  destruct (marshal_elems true (default [] ps)) as [body|]; [|discriminate].
  intros [= <-]. exists body. split; reflexivity.
Qed.

Lemma syncRequest_sent r wire c a w c' :
  t_open (transport c) = true ->
  syncRequest r wire c = Done (inr a, w) c' ->
  exists b, encode r = inr b
    /\ t_sent (transport c') = t_sent (transport c) ++ [b ++ [delimiter]].
Proof.
  intros Ht. unfold syncRequest. unfold bind at 1.
  destruct (make_chan c) as [res c1| |] eqn:H1; try discriminate.
  apply quiet_make_chan in H1.
  unfold bind at 1.
  destruct (register (ID r) _ c1) as [u c2| |] eqn:H2; try discriminate.
  apply quiet_register in H2.
  destruct (encode r) as [e|b].
  { unfold bind. destruct (removeSubscription (ID r) c2); discriminate. }
  unfold bind at 1. rewrite sendMessage_open by congruence.
  unfold bind at 1.
  destruct (await res wire _) as [got c4| |] eqn:H4; try discriminate.
  apply quiet_await in H4.
  unfold bind at 1.
  destruct (removeSubscription (ID r) c4) as [u' c5| |] eqn:H5; try discriminate.
  apply quiet_removeSubscription in H5.
  unfold ret. intros Hrun. inversion Hrun. subst.
  exists b. split; [reflexivity|].
  rewrite H5, H4. simpl. rewrite H2, H1. reflexivity.
Qed.

(** C1, as the code has it on the synchronous path. [encode] already
    ends the object with the delimiter and [syncRequest] appends the
    delimiter once more, so the frame a synchronous call hands to the
    transport ends with two 0x0A bytes. The parameters of the request
    are written as an array, [[]] when the call has none. *)
Theorem sync_frame_ends_with_two_delimiters (c c2 : Client) (name : string)
    (ps : slice_any) (wire w : list event) (a : option response) :
  mu c = false ->
  t_open (transport c) = true ->
  (r <- req name ps ;; syncRequest r wire) c = Done (inr a, w) c2 ->
  exists body,
    marshal_elems true (default [] ps) = Some body
    /\ t_sent (transport c2)
       = t_sent (transport c)
         ++ [request_object (counter c) name body ++ [delimiter; delimiter]].
Proof.
  intros Hmu Ht. unfold bind. rewrite req_free by exact Hmu. intros Hrun.
  apply syncRequest_sent in Hrun; [|exact Ht].
  destruct Hrun as (b & Hb & Hsent).
  apply encode_req in Hb. destruct Hb as (body & Hbody & ->).
  exists body. split; [exact Hbody|].
  rewrite Hsent. simpl transport. rewrite <- app_assoc. reflexivity.
Qed.

(** The registration of a subscription sends what [encode] returns: one
    delimiter. *)
Lemma startSubscription_sent sub c c' :
  mu c = false ->
  t_open (transport c) = true ->
  startSubscription sub c = Done None c' ->
  exists body,
    marshal_elems true (default [] (params sub)) = Some body
    /\ t_sent (transport c')
       = t_sent (transport c)
         ++ [request_object (counter c) (method sub) body ++ [delimiter]].
Proof.
  intros Hmu Ht. unfold startSubscription. unfold bind at 1.
  rewrite req_free by exact Hmu. unfold bind at 1.
  destruct (register _ sub _) as [u c2| |] eqn:H2; try discriminate.
  apply quiet_register in H2. simpl ID.
  destruct (encode _) as [e|b] eqn:Hb.
  { unfold bind. destruct (removeSubscription _ c2); discriminate. }
  apply encode_req in Hb. destruct Hb as (body & Hbody & ->).
  unfold bind at 1. rewrite sendMessage_open by (rewrite H2; exact Ht).
  unfold ret. intros Hrun. inversion Hrun. subst.
  exists body. split; [exact Hbody|]. simpl. rewrite H2. reflexivity.
Qed.

(** Scenario: a single call of [server.banner]. *)
Definition banner_reply : list event :=
  [EvResponse (result 0 (JString "ElectrumX 1.16.0"))].

Definition after_banner : Client :=
  final ((r <- req "server.banner" None ;; syncRequest r banner_reply) sample_client)
        sample_client.

Lemma sync_frame_ends_with_two_delimiters_witness :
  (r <- req "server.banner" None ;; syncRequest r banner_reply) sample_client
  = Done (inr (Some (result 0 (JString "ElectrumX 1.16.0"))), []) after_banner
  /\ t_sent (transport after_banner)
     = [request_object 0 "server.banner" [] ++ [delimiter; delimiter]].
Proof.
  assert (Hrun : (r <- req "server.banner" None ;; syncRequest r banner_reply)
                   sample_client
                 = Done (inr (Some (result 0 (JString "ElectrumX 1.16.0"))), [])
                        after_banner)
    by (vm_compute; reflexivity).
  split; [exact Hrun|].
  destruct (sync_frame_ends_with_two_delimiters sample_client after_banner
              "server.banner" None banner_reply [] _ eq_refl eq_refl Hrun)
    as (body & Hbody & Hsent).
  injection Hbody as <-. exact Hsent.
Defined.

(** [strings.Join] on byte sequences. *)
Fixpoint join_bytes (xs : list bytes) : bytes :=
  match xs with
  | [] => []
  | [x] => x
  | x :: xs' => x ++ lit "," ++ join_bytes xs'
  end.

Lemma lit_app (a b : string) : lit (a ++ b) = lit a ++ lit b.
Proof.
  unfold lit. induction a as [|x a IH]; [reflexivity|].
  rewrite app_String. simpl. rewrite IH. reflexivity.
Qed.

Lemma lit_Join (xs : list bytes) :
  lit (Join (map string_of_list_ascii xs) comma) = join_bytes xs.
Proof.
  induction xs as [|x xs IH]; [reflexivity|].
  destruct xs as [|y xs].
  - simpl. apply list_ascii_of_string_of_list_ascii.
  - change (Join (map string_of_list_ascii (x :: y :: xs)) comma)
      with (string_of_list_ascii x ++ comma
            ++ Join (map string_of_list_ascii (y :: xs)) comma)%string.
    rewrite !lit_app, IH. unfold lit at 1.
    rewrite list_ascii_of_string_of_list_ascii. reflexivity.
Qed.

Lemma encodeEach_inr rs l :
  encodeEach rs = inr l ->
  exists objs,
    Forall2 (fun r o => marshal_request (with_RPC r) = Some o) rs objs
    /\ l = map string_of_list_ascii (map (fun o => o ++ [delimiter]) objs).
Proof.
  revert l. induction rs as [|r rs IH]; intros l; simpl.
  - intros [= <-]. exists []. split; [constructor|reflexivity].
  - unfold encode. destruct (marshal_request (with_RPC r)) as [o|] eqn:Ho; [|discriminate].
    destruct (encodeEach rs) as [e|l']; [discriminate|].
    intros [= <-]. destruct (IH l' eq_refl) as (objs & Hobjs & ->).
    exists (o :: objs). split; [constructor; assumption|reflexivity].
Qed.

(** The bytes [encodeBatch] returns: every object carries the delimiter
    [encode] appended to it. *)
Lemma encodeBatch_inr rs b :
  encodeBatch rs = inr b ->
  exists objs,
    Forall2 (fun r o => marshal_request (with_RPC r) = Some o) rs objs
    /\ b = lit "[" ++ join_bytes (map (fun o => o ++ [delimiter]) objs) ++ lit "]".
Proof.
  unfold encodeBatch. destruct (encodeEach rs) as [e|l] eqn:Hl; [discriminate|].
  intros [= <-]. apply encodeEach_inr in Hl. destruct Hl as (objs & Hobjs & ->).
  exists objs. split; [exact Hobjs|].
  fold (lit (arrayStart ++ Join (map string_of_list_ascii
          (map (fun o => o ++ [delimiter]) objs)) comma ++ arrayEnd)).
  rewrite !lit_app, lit_Join. reflexivity.
Qed.

Lemma syncBatchRequest_sent rs wire c out w c' :
  syncBatchRequest rs wire c = Done (inr out, w) c' ->
  exists b, encodeBatch rs = inr b
    /\ t_sent (transport c') = t_sent (transport c) ++ [b ++ [delimiter]].
Proof.
  unfold syncBatchRequest. unfold bind at 1.
  destruct (make_chan c) as [res c1| |] eqn:H1; try discriminate.
  apply quiet_make_chan in H1.
  unfold bind at 1.
  destruct (Lock c1) as [u c2| |] eqn:H2; try discriminate.
  apply quiet_Lock in H2.
  unfold bind at 1.
  destruct (registerBatch res 0 rs ∅ c2) as [reqMap c3| |] eqn:H3; try discriminate.
  apply quiet_registerBatch in H3.
  unfold bind at 1.
  destruct (Unlock c3) as [u' c4| |] eqn:H4; try discriminate.
  apply quiet_Unlock in H4.
  destruct (encodeBatch rs) as [e|b]; [discriminate|].
  unfold bind at 1. unfold sendMessage.
  destruct (t_open (transport c4)) eqn:Ht; [|discriminate].
  unfold bind at 1.
  destruct (collectAll _ _ _ _ _ _ _) as [got c6| |] eqn:H6; try discriminate.
  apply quiet_collectAll in H6.
  unfold ret. intros Hrun. inversion Hrun. subst.
  exists b. split; [reflexivity|].
  rewrite H6. simpl. rewrite H4, H3, H2, H1. reflexivity.
Qed.

(** C8, as the code has it. The frame [syncBatchRequest] hands to the
    transport is '[' obj1 LF ',' obj2 LF ',' ... ']' LF: [encodeBatch]
    joins what [encode] returns, and [encode] ends every object with the
    delimiter, so the array holds one 0x0A byte after each request object
    in addition to the trailing one. *)
Theorem batch_frame_embeds_delimiters (c c2 : Client) (rs : list request)
    (wire w : list event) (out : list (option response)) :
  syncBatchRequest rs wire c = Done (inr out, w) c2 ->
  exists objs,
    Forall2 (fun r o => marshal_request (with_RPC r) = Some o) rs objs
    /\ t_sent (transport c2)
       = t_sent (transport c)
         ++ [lit "[" ++ join_bytes (map (fun o => o ++ [delimiter]) objs)
             ++ lit "]" ++ [delimiter]].
Proof.
  intros Hrun. apply syncBatchRequest_sent in Hrun.
  destruct Hrun as (b & Hb & Hsent).
  apply encodeBatch_inr in Hb. destruct Hb as (objs & Hobjs & ->).
  exists objs. split; [exact Hobjs|].
  rewrite Hsent, <- !app_assoc. reflexivity.
Qed.

(** Scenario: a batch of one. *)
Definition lone_reply : list event := [EvResponse (result 0 (JString "tx1"))].

Definition after_lone_batch : Client :=
  final (syncBatchRequest lone_request lone_reply (set_counter 1 sample_client))
        sample_client.

Lemma batch_frame_embeds_delimiters_witness :
  syncBatchRequest lone_request lone_reply (set_counter 1 sample_client)
  = Done (inr [Some (result 0 (JString "tx1"))], []) after_lone_batch
  /\ exists body,
       marshal_elems true [Str "h1"; Bool true] = Some body
       /\ t_sent (transport after_lone_batch)
          = [lit "[" ++ request_object 0 "blockchain.transaction.get" body
             ++ [delimiter] ++ lit "]" ++ [delimiter]].
Proof.
  assert (Hrun : syncBatchRequest lone_request lone_reply (set_counter 1 sample_client)
                 = Done (inr [Some (result 0 (JString "tx1"))], []) after_lone_batch)
    by (vm_compute; reflexivity).
  split; [exact Hrun|].
  destruct (batch_frame_embeds_delimiters _ _ _ _ _ _ Hrun) as (objs & Hobjs & Hsent).
  inversion Hobjs as [|r o rs' objs' Ho Hrest]; subst.
  inversion Hrest; subst.
  eexists. split; [vm_compute; reflexivity|].
  rewrite Hsent. vm_compute in Ho. injection Ho as <-. vm_compute. reflexivity.
Defined.

(** ** Decoding what the encoder wrote (C9) *)

(** What may follow a value inside a document. *)
Definition stops (rest : bytes) : Prop :=
  match rest with
  | [] => True
  | b :: _ => b = ","%char \/ b = "]"%char \/ b = "}"%char
  end.

Definition digits (u : Decimal.uint) : bytes :=
  list_ascii_of_string (NilEmpty.string_of_uint u).

Lemma digits_all u : Forall (fun b => is_digit b = true) (digits u).
Proof. induction u; simpl; constructor; auto. Qed.

Lemma digits_nonnil u : u <> Decimal.Nil -> digits u <> [].
Proof. destruct u; intros Hu; [contradiction|discriminate..]. Qed.

Lemma span_digits_app ds rest :
  Forall (fun b => is_digit b = true) ds ->
  stops rest ->
  span_digits (ds ++ rest) = (ds, rest).
Proof.
  intros Hds Hrest. induction Hds as [|b ds Hb _ IH]; simpl.
  - destruct rest as [|b rest]; [reflexivity|].
    simpl. destruct Hrest as [->|[->| ->]]; reflexivity.
  - rewrite Hb, IH. reflexivity.
Qed.

Lemma to_int_norm z : Decimal.norm (Z.to_int z) = Z.to_int z.
Proof. rewrite <- DecimalZ.to_of, DecimalZ.of_to. reflexivity. Qed.

(** A normalized numeral has no leading zero unless it is zero. *)
Lemma nzhead_fix_no_leading_zero u :
  Decimal.nzhead u = u -> forall u', u <> Decimal.D0 u'.
Proof.
  intros Hu u' ->. apply (DecimalFacts.nzhead_nonzero (Decimal.D0 u') u'). exact Hu.
Qed.

Lemma unorm_fix u :
  Decimal.unorm u = u -> u = Decimal.zero \/ (Decimal.nzhead u = u /\ u <> Decimal.Nil).
Proof.
  unfold Decimal.unorm. destruct (Decimal.nzhead u) eqn:Hn; intros Hu;
    try (right; split; [congruence|congruence]).
  left. congruence.
Qed.

Lemma leading_zero_digits u :
  (u = Decimal.zero \/ Decimal.nzhead u = u) -> leading_zero (digits u) = false.
Proof.
  intros [->|Hfix]; [reflexivity|].
  destruct u; try reflexivity.
  exfalso. apply (nzhead_fix_no_leading_zero _ Hfix u). reflexivity.
Qed.

Lemma fraction_follows_stops rest : stops rest -> fraction_follows rest = false.
Proof. destruct rest as [|b rest]; [auto|]. intros [->|[->| ->]]; reflexivity. Qed.

Lemma split_sign_digits ds rest :
  ds <> [] -> Forall (fun b => is_digit b = true) ds ->
  split_sign (ds ++ rest) = ([], ds ++ rest).
Proof.
  intros Hne Hall. destruct ds as [|d ds]; [contradiction|].
  inversion Hall as [|? ? Hd _]; subst. simpl.
  destruct (Ascii.eqb d "-"%char) eqn:Hm; [|reflexivity].
  apply Ascii.eqb_eq in Hm. subst. discriminate.
Qed.

Lemma parse_number_spec (negative : bool) ds rest n :
  ds <> [] ->
  Forall (fun b => is_digit b = true) ds ->
  leading_zero ds = false ->
  stops rest ->
  NilZero.int_of_string
    (string_of_list_ascii ((if negative then ["-"%char] else []) ++ ds)) = Some n ->
  parse_number ((if negative then ["-"%char] else []) ++ ds ++ rest)
  = Parsed (JNumber (Z.of_int n) 0) rest.
Proof.
  intros Hne Hall Hlead Hrest Hn. unfold parse_number.
  assert (Hsplit : split_sign ((if negative then ["-"%char] else []) ++ ds ++ rest)
                   = (if negative then ["-"%char] else [], ds ++ rest)).
  { destruct negative; [reflexivity|]. rewrite app_nil_l.
    apply split_sign_digits; assumption. }
  rewrite Hsplit, (span_digits_app _ _ Hall Hrest), Hlead,
    (fraction_follows_stops _ Hrest).
  destruct ds as [|d ds]; [contradiction|]. simpl length. cbv iota beta.
  change (Nat.eqb (S (length ds)) 0) with false. cbv iota.
  unfold finish_number. rewrite Hn. reflexivity.
Qed.

Lemma parse_number_appendInt z rest :
  stops rest ->
  parse_number (appendInt z ++ rest) = Parsed (JNumber z 0) rest.
Proof.
  intros Hrest. unfold appendInt.
  pose proof (to_int_norm z) as Hnorm.
  pose proof (DecimalZ.of_to z) as Hz.
  destruct (Z.to_int z) as [u|u] eqn:Hd.
  - simpl in Hnorm. injection Hnorm as Hu.
    assert (Hnn : u <> Decimal.Nil) by (intros ->; discriminate Hu).
    assert (Hstr : NilZero.string_of_int (Decimal.Pos u) = NilEmpty.string_of_uint u)
      by (destruct u; try reflexivity; contradiction).
    assert (Hisi : NilZero.int_of_string (NilZero.string_of_int (Decimal.Pos u))
                   = Some (Decimal.Pos u)) by (apply NilZero.isi; congruence).
    rewrite Hstr in *. fold (digits u).
    rewrite <- Hz.
    apply (parse_number_spec false (digits u) rest (Decimal.Pos u)).
    + apply digits_nonnil. exact Hnn.
    + apply digits_all.
    + apply leading_zero_digits. destruct (unorm_fix u Hu) as [H0|[Hfix _]]; auto.
    + exact Hrest.
    + simpl app. unfold digits. rewrite string_of_list_ascii_of_string. exact Hisi.
  - assert (Hfix : Decimal.nzhead u = u /\ u <> Decimal.Nil).
    { simpl in Hnorm. destruct (Decimal.nzhead u) eqn:Hn; try discriminate;
        injection Hnorm as Hu; rewrite <- Hu; split; congruence. }
    destruct Hfix as [Hfix Hnn].
    assert (Hstr : list_ascii_of_string (NilZero.string_of_int (Decimal.Neg u))
                   = ["-"%char] ++ digits u)
      by (destruct u; try reflexivity; contradiction).
    assert (Hisi : NilZero.int_of_string (NilZero.string_of_int (Decimal.Neg u))
                   = Some (Decimal.Neg u)) by (apply NilZero.isi; congruence).
    rewrite Hstr, <- app_assoc, <- Hz.
    apply (parse_number_spec true (digits u) rest (Decimal.Neg u)).
    + apply digits_nonnil. exact Hnn.
    + apply digits_all.
    + apply leading_zero_digits. auto.
    + exact Hrest.
    + rewrite <- Hstr, string_of_list_ascii_of_string. exact Hisi.
Qed.

(** [utf8.Valid], by the traversal of [appendString]. *)
Fixpoint valid_from (pending : nat) (s : bytes) : bool :=
  match s with
  | [] => true
  | b :: t =>
      match pending with
      | S k => valid_from k t
      | O =>
          if (byte_val b <? 128)%N then valid_from 0 t
          else
            match rune_len s with
            | Some n => valid_from (n - 1) t
            | None => false
            end
      end
  end.

Definition valid_utf8 (s : string) : bool := valid_from 0 (list_ascii_of_string s).

(** What [appendString] writes for one ASCII byte. *)
Definition quote_ascii (b : ascii) : bytes :=
  if htmlSafe b then [b] else escape_byte b.

Lemma quote_from_ascii b t :
  (byte_val b <? 128)%N = true ->
  quote_from 0 true (b :: t) = quote_ascii b ++ quote_from 0 true t.
Proof. intros Hb. simpl. rewrite Hb. reflexivity. Qed.

Lemma unquote_ascii b :
  (byte_val b <? 128)%N = true ->
  quote_ascii b <> []
  /\ forall f x, unquote (S f) (quote_ascii b ++ x) = prepend [b] (unquote f x).
Proof.
  destruct b as [[] [] [] [] [] [] [] []]; intros Hb; try discriminate Hb;
    (split; [discriminate|intros f x; reflexivity]).
Qed.

Lemma high_byte b :
  (byte_val b <? 128)%N = false ->
  Ascii.eqb b dquote = false /\ Ascii.eqb b backslash = false
  /\ (byte_val b <? 32)%N = false.
Proof.
  destruct b as [[] [] [] [] [] [] [] []]; intros Hb; try discriminate Hb;
    repeat split; reflexivity.
Qed.

Lemma byte_of_val b : byte_of (byte_val b) = b.
Proof. apply ascii_N_embedding. Qed.

Lemma byte_val_eq b n : (byte_val b =? n)%N = true -> b = byte_of n.
Proof. intros H. apply N.eqb_eq in H. rewrite <- H. symmetry. apply byte_of_val. Qed.

Lemma valid_from_scan b t :
  valid_from 0 (b :: t) =
    if (byte_val b <? 128)%N then valid_from 0 t
    else match rune_len (b :: t) with
         | Some n => valid_from (n - 1) t
         | None => false
         end.
Proof. reflexivity. Qed.

Lemma valid_from_pending k b t : valid_from (S k) (b :: t) = valid_from k t.
Proof. reflexivity. Qed.

Lemma valid_from_nil k : valid_from k [] = true.
Proof. reflexivity. Qed.

Lemma quote_from_scan b t :
  quote_from 0 true (b :: t) =
    if (byte_val b <? 128)%N then quote_ascii b ++ quote_from 0 true t
    else match rune_len (b :: t) with
         | None => backslash :: lit "ufffd" ++ quote_from 0 true t
         | Some n =>
             match line_sep (b :: t) with
             | Some d => backslash :: lit "u202" ++ [d] ++ quote_from (n - 1) false t
             | None => b :: quote_from (n - 1) true t
             end
         end.
Proof. reflexivity. Qed.

Lemma quote_from_pending k keep b t :
  quote_from (S k) keep (b :: t) = (if keep then [b] else []) ++ quote_from k keep t.
Proof. reflexivity. Qed.

Lemma quote_from_done s : quote_from 0 false s = quote_from 0 true s.
Proof. destruct s; reflexivity. Qed.

Lemma unquote_high f b t :
  (byte_val b <? 128)%N = false ->
  unquote (S f) (b :: t) =
    match rune_len (b :: t) with
    | Some n => prepend (firstn n (b :: t)) (unquote f (skipn n (b :: t)))
    | None => prepend replacement (unquote f t)
    end.
Proof.
  intros Hb. destruct (high_byte b Hb) as (Hq & Hs & Hc).
  cbn [unquote]. rewrite Hq, Hs, Hc, Hb. reflexivity.
Qed.

Lemma rune_step b t n :
  (byte_val b <? 128)%N = false ->
  rune_len (b :: t) = Some n ->
  exists run t' enc,
    b :: t = run ++ t'
    /\ valid_from 0 (b :: t) = valid_from 0 t'
    /\ quote_from 0 true (b :: t) = enc ++ quote_from 0 true t'
    /\ (0 < length run <= length enc)%nat
    /\ forall f x, unquote (S f) (enc ++ x) = prepend run (unquote f x).
Proof.
  intros Hb Hlen.
  rewrite valid_from_scan, quote_from_scan, Hb, Hlen.
  pose proof Hlen as Hlen'.
  unfold rune_len in Hlen. rewrite Hb in Hlen.
  destruct (byte_val b <? 194)%N eqn:E1; [discriminate|].
  destruct (byte_val b <? 224)%N eqn:E2.
  { destruct t as [|b1 t']; [discriminate|].
    destruct (is_cont b1) eqn:C1; [|discriminate]. injection Hlen as <-.
    exists [b; b1], t', [b; b1].
    assert (Hls : line_sep (b :: b1 :: t') = None).
    { unfold line_sep. destruct t'; [reflexivity|].
      destruct (byte_val b =? 226)%N eqn:E; [|reflexivity].
      apply N.eqb_eq in E. rewrite E in E2. discriminate. }
    rewrite Hls. cbn [Nat.sub]. rewrite valid_from_pending, quote_from_pending.
    rewrite ?quote_from_done.
    split; [reflexivity|]. split; [destruct t'; reflexivity|].
    split; [reflexivity|]. split; [simpl; lia|].
    intros f x. cbn [app]. rewrite (unquote_high f b (b1 :: x) Hb).
    unfold rune_len. rewrite Hb, E1, E2, C1. reflexivity. }
  destruct (byte_val b <? 240)%N eqn:E3.
  { destruct t as [|b1 [|b2 t']]; try discriminate.
    destruct (in_range _ _ b1 && is_cont b2) eqn:C1; [|discriminate].
    injection Hlen as <-.
    exists [b; b1; b2], t'.
    destruct (line_sep (b :: b1 :: b2 :: t')) as [d|] eqn:Hls.
    - exists (backslash :: lit "u202" ++ [d]).
      cbn [Nat.sub]. rewrite !valid_from_pending, !quote_from_pending.
      rewrite ?quote_from_done.
      split; [reflexivity|]. split; [destruct t'; reflexivity|].
      split; [reflexivity|]. split; [simpl; lia|].
      intros f x. unfold line_sep in Hls.
      destruct ((byte_val b =? 226) && (byte_val b1 =? 128))%N eqn:E; [|discriminate].
      apply andb_true_iff in E. destruct E as [Eb Eb1].
      apply byte_val_eq in Eb. apply byte_val_eq in Eb1. subst b b1.
      destruct (byte_val b2 =? 168)%N eqn:E8.
      + apply byte_val_eq in E8. injection Hls as <-. subst b2. reflexivity.
      + destruct (byte_val b2 =? 169)%N eqn:E9; [|discriminate].
        apply byte_val_eq in E9. injection Hls as <-. subst b2. reflexivity.
    - exists [b; b1; b2].
      cbn [Nat.sub]. rewrite !valid_from_pending, !quote_from_pending.
      rewrite ?quote_from_done.
      split; [reflexivity|]. split; [destruct t'; reflexivity|].
      split; [reflexivity|]. split; [simpl; lia|].
      intros f x. cbn [app]. rewrite (unquote_high f b (b1 :: b2 :: x) Hb).
      unfold rune_len. rewrite Hb, E1, E2, E3, C1. reflexivity. }
  destruct (byte_val b <? 245)%N eqn:E4; [|discriminate].
  destruct t as [|b1 [|b2 [|b3 t']]]; try discriminate.
  destruct (in_range _ _ b1 && is_cont b2 && is_cont b3) eqn:C1; [|discriminate].
  injection Hlen as <-.
  exists [b; b1; b2; b3], t', [b; b1; b2; b3].
  assert (Hls : line_sep (b :: b1 :: b2 :: b3 :: t') = None).
  { unfold line_sep.
    destruct (byte_val b =? 226)%N eqn:E; [|reflexivity].
    apply N.eqb_eq in E. rewrite E in E3. discriminate. }
  rewrite Hls. cbn [Nat.sub]. rewrite !valid_from_pending, !quote_from_pending.
  rewrite ?quote_from_done.
  split; [reflexivity|]. split; [destruct t'; reflexivity|].
  split; [reflexivity|]. split; [simpl; lia|].
  intros f x. cbn [app]. rewrite (unquote_high f b (b1 :: b2 :: b3 :: x) Hb).
  unfold rune_len. rewrite Hb, E1, E2, E3, E4, C1. reflexivity.
Qed.

Lemma unquote_quote : forall n src,
  (length src <= n)%nat ->
  valid_from 0 src = true ->
  (length src <= length (quote_from 0 true src))%nat
  /\ forall fuel rest, (length src < fuel)%nat ->
       unquote fuel (quote_from 0 true src ++ dquote :: rest) = Parsed src rest.
Proof.
  induction n as [|n IH]; intros src Hn Hvalid.
  - destruct src; [|simpl in Hn; lia]. split; [simpl; lia|].
    intros [|f] rest Hf; [lia|]. reflexivity.
  - destruct src as [|b t].
    { split; [simpl; lia|]. intros [|f] rest Hf; [simpl in Hf; lia|]. reflexivity. }
    destruct (byte_val b <? 128)%N eqn:Hb.
    + rewrite valid_from_scan, Hb in Hvalid.
      destruct (IH t) as [Hlen Hun]; [simpl in Hn; lia|exact Hvalid|].
      destruct (unquote_ascii b Hb) as [Hne Hstep].
      rewrite quote_from_ascii by exact Hb. split.
      * rewrite length_app. destruct (quote_ascii b); [contradiction|]. simpl. lia.
      * intros [|f] rest Hf; [lia|]. rewrite <- app_assoc, Hstep, Hun by (simpl in Hf; lia).
        reflexivity.
    + pose proof Hvalid as Hv. rewrite valid_from_scan, Hb in Hv.
      destruct (rune_len (b :: t)) as [k|] eqn:Hk; [|discriminate].
      destruct (rune_step b t k Hb Hk) as (run & t' & enc & Hsplit & Hval & Hq & Hl & Hstep).
      assert (Hlt : length (b :: t) = (length run + length t')%nat)
        by (rewrite Hsplit; apply length_app).
      destruct (IH t') as [Hlen Hun]; [simpl in *; lia|congruence|].
      rewrite Hq. split.
      * rewrite Hlt, length_app. lia.
      * intros [|f] rest Hf; [lia|].
        rewrite <- app_assoc, Hstep, Hun by lia. rewrite Hsplit. reflexivity.
Qed.

(** The text of a tree, as the encoder writes values: no white space,
    members in the order of the list. *)
Fixpoint print (t : json) : bytes :=
  match t with
  | JNull => lit "null"
  | JBool true => lit "true"
  | JBool false => lit "false"
  | JNumber m _ => appendInt m
  | JString s => appendString s
  | JArray l =>
      let fix elems (first : bool) (l : list json) : bytes :=
        match l with
        | [] => []
        | x :: l' => (if first then [] else lit ",") ++ print x ++ elems false l'
        end in
      lit "[" ++ elems true l ++ lit "]"
  | JObject kv =>
      let fix members (first : bool) (kv : list (string * json)) : bytes :=
        match kv with
        | [] => []
        | (k, x) :: kv' =>
            (if first then [] else lit ",")
            ++ appendString k ++ lit ":" ++ print x ++ members false kv'
        end in
      lit "{" ++ members true kv ++ lit "}"
  end.

Fixpoint print_elems (first : bool) (l : list json) : bytes :=
  match l with
  | [] => []
  | x :: l' => (if first then [] else lit ",") ++ print x ++ print_elems false l'
  end.

Fixpoint print_members (first : bool) (kv : list (string * json)) : bytes :=
  match kv with
  | [] => []
  | (k, x) :: kv' =>
      (if first then [] else lit ",")
      ++ appendString k ++ lit ":" ++ print x ++ print_members false kv'
  end.

Lemma print_JArray l : print (JArray l) = lit "[" ++ print_elems true l ++ lit "]".
Proof. reflexivity. Qed.

Lemma print_JObject kv : print (JObject kv) = lit "{" ++ print_members true kv ++ lit "}".
Proof. reflexivity. Qed.

(** The trees the decoder gives back as they were printed: numbers are
    integer literals, strings and keys are valid UTF-8, and containers
    nest at most [d] deep. *)
Fixpoint plain (d : nat) (t : json) {struct t} : bool :=
  match t with
  | JNull | JBool _ => true
  | JNumber _ e => e =? 0
  | JString s => valid_utf8 s
  | JArray l =>
      match d with
      | O => false
      | S d' =>
          (fix all (l : list json) : bool :=
             match l with
             | [] => true
             | x :: l' => plain d' x && all l'
             end) l
      end
  | JObject kv =>
      match d with
      | O => false
      | S d' =>
          (fix all (kv : list (string * json)) : bool :=
             match kv with
             | [] => true
             | (k, x) :: kv' => valid_utf8 k && plain d' x && all kv'
             end) kv
      end
  end.

Fixpoint plain_elems (d : nat) (l : list json) : bool :=
  match l with
  | [] => true
  | x :: l' => plain d x && plain_elems d l'
  end.

Fixpoint plain_members (d : nat) (kv : list (string * json)) : bool :=
  match kv with
  | [] => true
  | (k, x) :: kv' => valid_utf8 k && plain d x && plain_members d kv'
  end.

Lemma plain_JArray d l : plain (S d) (JArray l) = plain_elems d l.
Proof.
  induction l as [|x l IH]; [reflexivity|].
  cbn [plain plain_elems] in *. rewrite IH. reflexivity.
Qed.

Lemma plain_JObject d kv : plain (S d) (JObject kv) = plain_members d kv.
Proof.
  induction kv as [|[k x] kv IH]; [reflexivity|].
  cbn [plain plain_members] in *. rewrite IH. reflexivity.
Qed.

(** The first byte of a printed tree tells the decoder what follows. *)
Inductive opener : Type := OpQuote | OpArray | OpObject | OpNumber | OpWord.

Definition opens (b : ascii) : opener :=
  if Ascii.eqb b dquote then OpQuote
  else if Ascii.eqb b "["%char then OpArray
  else if Ascii.eqb b "{"%char then OpObject
  else if Ascii.eqb b "-"%char || is_digit b then OpNumber
  else OpWord.

Lemma digit_opens b :
  (b = "-"%char \/ is_digit b = true) ->
  opens b = OpNumber /\ is_ws b = false
  /\ Ascii.eqb b "]"%char = false /\ Ascii.eqb b "}"%char = false.
Proof.
  intros [->|Hd]; [repeat split; reflexivity|].
  destruct b as [[] [] [] [] [] [] [] []]; try discriminate Hd; repeat split; reflexivity.
Qed.

Lemma appendInt_first z :
  exists b t, appendInt z = b :: t /\ (b = "-"%char \/ is_digit b = true).
Proof.
  unfold appendInt. pose proof (to_int_norm z) as Hnorm.
  destruct (Z.to_int z) as [u|u].
  - simpl in Hnorm. injection Hnorm as Hu.
    assert (Hnn : u <> Decimal.Nil) by (intros ->; discriminate Hu).
    assert (Hstr : NilZero.string_of_int (Decimal.Pos u) = NilEmpty.string_of_uint u)
      by (destruct u; try reflexivity; contradiction).
    rewrite Hstr. fold (digits u). pose proof (digits_all u) as Hall.
    destruct (digits u) as [|b t] eqn:Hd; [exfalso; revert Hd; apply digits_nonnil; exact Hnn|].
    inversion Hall; subst. eauto.
  - exists "-"%char. destruct u; simpl; eauto.
Qed.

Lemma parse_value_unfold f depth b t :
  parse_value (S f) depth (b :: t) =
    match opens b with
    | OpQuote =>
        match unquote (S (length t)) t with
        | Parsed str rest => Parsed (JString (string_of_list_ascii str)) rest
        | Invalid => Invalid
        | Unmodelled => Unmodelled
        end
    | OpArray =>
        if Nat.leb maxNestingDepth depth then Invalid
        else
          match skip_ws t with
          | b' :: t' =>
              if Ascii.eqb b' "]"%char then Parsed (JArray []) t'
              else parse_elems f (S depth) (b' :: t') []
          | [] => Invalid
          end
    | OpObject =>
        if Nat.leb maxNestingDepth depth then Invalid
        else
          match skip_ws t with
          | b' :: t' =>
              if Ascii.eqb b' "}"%char then Parsed (JObject []) t'
              else parse_members f (S depth) (b' :: t') []
          | [] => Invalid
          end
    | OpNumber => parse_number (b :: t)
    | OpWord =>
        match starts "null" (b :: t), starts "true" (b :: t), starts "false" (b :: t) with
        | Some rest, _, _ => Parsed JNull rest
        | _, Some rest, _ => Parsed (JBool true) rest
        | _, _, Some rest => Parsed (JBool false) rest
        | _, _, _ => Invalid
        end
    end.
Proof.
  unfold opens. cbn [parse_value].
  destruct (Ascii.eqb b dquote); [reflexivity|].
  destruct (Ascii.eqb b "["%char); [reflexivity|].
  destruct (Ascii.eqb b "{"%char); [reflexivity|].
  destruct (Ascii.eqb b "-"%char || is_digit b); reflexivity.
Qed.

Lemma skip_ws_id b t : is_ws b = false -> skip_ws (b :: t) = b :: t.
Proof. intros Hb. simpl. rewrite Hb. reflexivity. Qed.

Lemma print_first t :
  exists b t', print t = b :: t' /\ is_ws b = false
    /\ Ascii.eqb b "]"%char = false /\ Ascii.eqb b "}"%char = false.
Proof.
  destruct t as [|[]|m e|s|l|kv]; try (eexists _, _; repeat split; reflexivity).
  cbn [print]. destruct (appendInt_first m) as (b & t & -> & Hb).
  apply digit_opens in Hb. exists b, t. tauto.
Qed.

Lemma skip_ws_print t x : skip_ws (print t ++ x) = print t ++ x.
Proof.
  destruct (print_first t) as (b & t' & -> & Hws & _). apply skip_ws_id. exact Hws.
Qed.

Lemma print_length t : (1 <= length (print t))%nat.
Proof. destruct (print_first t) as (b & t' & -> & _). simpl. lia. Qed.

Lemma stops_elems l rest : stops (print_elems false l ++ "]"%char :: rest).
Proof. destruct l; simpl; auto. Qed.

Lemma stops_members kv rest : stops (print_members false kv ++ "}"%char :: rest).
Proof. destruct kv as [|[k x] kv]; simpl; auto. Qed.

Lemma parse_string s t rest :
  valid_utf8 s = true ->
  t = quote_from 0 true (list_ascii_of_string s) ++ dquote :: rest ->
  unquote (S (length t)) t = Parsed (list_ascii_of_string s) rest.
Proof.
  intros Hs ->.
  destruct (unquote_quote _ (list_ascii_of_string s) (le_n _) Hs) as [Hlen Hun].
  apply Hun. rewrite length_app. simpl. lia.
Qed.

Lemma depth_check depth d :
  (depth + S d <= maxNestingDepth)%nat -> Nat.leb maxNestingDepth depth = false.
Proof. intros H. apply Nat.leb_gt. lia. Qed.

Ltac lengths :=
  repeat first [rewrite length_app in * | progress cbn [length app] in *].

Lemma parse_print : forall fuel,
  (forall t d depth rest,
     plain d t = true -> (depth + d <= maxNestingDepth)%nat ->
     (length (print t) <= fuel)%nat -> stops rest ->
     parse_value fuel depth (print t ++ rest) = Parsed t rest)
  /\ (forall x l d depth rest acc,
        plain d x = true -> plain_elems d l = true ->
        (depth + d <= maxNestingDepth)%nat ->
        (length (print x ++ print_elems false l) < fuel)%nat ->
        parse_elems fuel depth (print x ++ print_elems false l ++ "]"%char :: rest) acc
        = Parsed (JArray (rev acc ++ x :: l)) rest)
  /\ (forall k x kv d depth rest acc,
        valid_utf8 k = true -> plain d x = true -> plain_members d kv = true ->
        (depth + d <= maxNestingDepth)%nat ->
        (length (appendString k ++ lit ":" ++ print x ++ print_members false kv) < fuel)%nat ->
        parse_members fuel depth
          (appendString k ++ lit ":" ++ print x ++ print_members false kv
           ++ "}"%char :: rest) acc
        = Parsed (JObject (rev acc ++ (k, x) :: kv)) rest).
Proof.
  induction fuel as [|f (IHv & IHe & IHm)].
  { split; [|split].
    - intros t d depth rest _ _ Hlen _. pose proof (print_length t). lia.
    - intros; lia.
    - intros; lia. }
  split; [|split].
  - (* a value *)
    intros t d depth rest Hplain Hdepth Hlen Hrest.
    destruct t as [|[]|m e|s|l|kv].
    + reflexivity.
    + reflexivity.
    + reflexivity.
    + simpl in Hplain. apply Z.eqb_eq in Hplain. subst e. cbn [print].
      destruct (appendInt_first m) as (b & t & Hm & Hb).
      apply digit_opens in Hb. destruct Hb as (Hop & _).
      pose proof (parse_number_appendInt m rest Hrest) as Hnum.
      rewrite Hm in *. cbn [app] in *. rewrite parse_value_unfold, Hop. exact Hnum.
    + simpl in Hplain. cbn [print]. unfold appendString. cbn [app].
      rewrite parse_value_unfold. change (opens dquote) with OpQuote. cbv iota.
      rewrite <- app_assoc. cbn [app].
      rewrite (parse_string s _ rest Hplain eq_refl).
      rewrite string_of_list_ascii_of_string. reflexivity.
    + destruct d as [|d]; [discriminate|].
      rewrite plain_JArray in Hplain. rewrite print_JArray in *.
      change (lit "[") with ["["%char] in *. change (lit "]") with ["]"%char] in *.
      cbn [app] in *. rewrite parse_value_unfold.
      change (opens "[") with OpArray. cbv iota.
      rewrite (depth_check depth d Hdepth).
      destruct l as [|x l].
      * reflexivity.
      * cbn [print_elems plain_elems] in *. apply andb_true_iff in Hplain.
        destruct Hplain as [Hx Hl]. cbn [app].
        assert (Hlen' : (length (print x ++ print_elems false l) < f)%nat).
        { clear -Hlen. lengths. lia. }
        rewrite <- !app_assoc. cbn [app].
        rewrite skip_ws_print.
        pose proof (IHe x l d (S depth) rest [] Hx Hl ltac:(lia) Hlen') as HIH.
        destruct (print_first x) as (b & t' & Hpx & _ & Hclose & _).
        rewrite Hpx in *. cbn [app] in *. rewrite Hclose. exact HIH.
    + destruct d as [|d]; [discriminate|].
      rewrite plain_JObject in Hplain. rewrite print_JObject in *.
      change (lit "{") with ["{"%char] in *. change (lit "}") with ["}"%char] in *.
      cbn [app] in *. rewrite parse_value_unfold.
      change (opens "{") with OpObject. cbv iota.
      rewrite (depth_check depth d Hdepth).
      destruct kv as [|[k x] kv].
      * reflexivity.
      * cbn [print_members plain_members] in *.
        apply andb_true_iff in Hplain. destruct Hplain as [Hkx Hkv].
        apply andb_true_iff in Hkx. destruct Hkx as [Hk Hx]. cbn [app].
        assert (Hlen' : (length (appendString k ++ lit ":" ++ print x
                                  ++ print_members false kv) < f)%nat).
        { clear -Hlen. lengths. lia. }
        pose proof (IHm k x kv d (S depth) rest [] Hk Hx Hkv ltac:(lia) Hlen') as HIH.
        rewrite <- !app_assoc in *. cbn [app] in *.
        unfold appendString in *. cbn [app skip_ws] in *.
        change (is_ws dquote) with false. cbv iota.
        change (Ascii.eqb dquote "}") with false. cbv iota.
        exact HIH.
  - (* the elements of an array *)
    intros x l d depth rest acc Hx Hl Hdepth Hlen.
    cbn [parse_elems].
    rewrite (IHv x d depth _ Hx Hdepth);
      [|clear -Hlen; lengths; lia|apply stops_elems].
    destruct l as [|y l].
    + cbn [print_elems app skip_ws].
      change (is_ws "]") with false. cbv iota.
      change (Ascii.eqb "]" ",") with false. change (Ascii.eqb "]" "]") with true.
      cbv iota. cbn [rev]. rewrite <- ?app_assoc. reflexivity.
    + cbn [print_elems plain_elems] in *. apply andb_true_iff in Hl.
      destruct Hl as [Hy Hl].
      change (lit ",") with [","%char] in *. cbn [app skip_ws].
      change (is_ws ",") with false. cbv iota.
      change (Ascii.eqb "," ",") with true. cbv iota.
      rewrite <- app_assoc, skip_ws_print.
      rewrite (IHe y l d depth rest (x :: acc) Hy Hl Hdepth).
      * cbn [rev]. rewrite <- ?app_assoc. reflexivity.
      * pose proof (print_length x) as Hpx. clear -Hlen Hpx. lengths. lia.
  - (* the members of an object *)
    intros k x kv d depth rest acc Hk Hx Hkv Hdepth Hlen.
    unfold appendString in *. cbn [app parse_members] in *.
    change (Ascii.eqb dquote dquote) with true. cbv iota.
    rewrite <- !app_assoc. cbn [app].
    rewrite (parse_string k _ _ Hk eq_refl).
    change (lit ":") with [":"%char] in *. cbn [app skip_ws].
    change (is_ws ":") with false. cbv iota.
    change (Ascii.eqb ":" ":") with true. cbv iota.
    rewrite skip_ws_print.
    rewrite (IHv x d depth _ Hx Hdepth); [| |apply stops_members].
    2: { clear -Hlen. lengths. lia. }
    rewrite string_of_list_ascii_of_string.
    destruct kv as [|[k' y] kv].
    + cbn [print_members app skip_ws].
      change (is_ws "}") with false. cbv iota.
      change (Ascii.eqb "}" ",") with false. change (Ascii.eqb "}" "}") with true.
      cbv iota. cbn [rev]. rewrite <- ?app_assoc. reflexivity.
    + cbn [print_members plain_members] in *.
      apply andb_true_iff in Hkv. destruct Hkv as [Hky Hkv].
      apply andb_true_iff in Hky. destruct Hky as [Hk' Hy].
      change (lit ",") with [","%char] in *. cbn [app skip_ws].
      change (is_ws ",") with false. cbv iota.
      change (Ascii.eqb "," ",") with true. cbv iota.
      unfold appendString. cbn [app skip_ws].
      change (is_ws dquote) with false. cbv iota.
      assert (Hlen' : (length (appendString k' ++ lit ":" ++ print y
                                ++ print_members false kv) < f)%nat).
      { pose proof (print_length x) as Hpx. clear -Hlen Hpx.
        unfold appendString in *. change (lit ":") with [":"%char] in *.
        lengths. lia. }
      pose proof (IHm k' y kv d depth rest ((k, x) :: acc) Hk' Hy Hkv Hdepth Hlen')
        as HIH.
      unfold appendString in HIH. rewrite <- !app_assoc in *.
      change (lit ":") with [":"%char] in *. cbn [app] in *.
      rewrite HIH. cbn [rev]. rewrite <- ?app_assoc. reflexivity.
Qed.

(** The tree the decoder finds in what the encoder wrote for a value. *)
Fixpoint tree_of (v : any) : json :=
  match v with
  | Nil => JNull
  | Bool b => JBool b
  | Int z => JNumber z 0
  | Str s => JString s
  | Slice l =>
      JArray ((fix each (l : list any) : list json :=
                 match l with
                 | [] => []
                 | x :: l' => tree_of x :: each l'
                 end) l)
  | Func => JNull
  end.

Lemma tree_of_Slice l : tree_of (Slice l) = JArray (map tree_of l).
Proof. reflexivity. Qed.

(** Is an integer exactly a float64. *)
Definition exact_float64 (z : Z) : bool :=
  match float64_of_Z z with
  | Some (m, e) => z =? m * 2 ^ e
  | None => false
  end.

(** Equality of a value that was sent with a value that was decoded. *)
Fixpoint json_equal (v : any) (t : json) {struct v} : bool :=
  match v, t with
  | Nil, JNull => true
  | Bool b, JBool b' => Bool.eqb b b'
  | Int z, JNumber m e => (0 <=? e) && (z =? m * 2 ^ e)
  | Str s, JString s' => String.eqb s s'
  | Slice l, JArray l' =>
      (fix each (l : list any) (l' : list json) : bool :=
         match l, l' with
         | [], [] => true
         | x :: l, y :: l' => json_equal x y && each l l'
         | _, _ => false
         end) l l'
  | _, _ => false
  end.

Fixpoint json_equal_all (l : list any) (l' : list json) : bool :=
  match l, l' with
  | [], [] => true
  | x :: l, y :: l' => json_equal x y && json_equal_all l l'
  | _, _ => false
  end.

Lemma json_equal_Slice l l' : json_equal (Slice l) (JArray l') = json_equal_all l l'.
Proof. reflexivity. Qed.

(** The values that survive the trip: no unsupported value, strings in
    valid UTF-8, integers that are exactly a float64, arrays nested at
    most [d] deep. *)
Fixpoint faithful (d : nat) (v : any) {struct v} : bool :=
  match v with
  | Nil | Bool _ => true
  | Int z => exact_float64 z
  | Str s => valid_utf8 s
  | Slice l =>
      match d with
      | O => false
      | S d' =>
          (fix all (l : list any) : bool :=
             match l with
             | [] => true
             | x :: l' => faithful d' x && all l'
             end) l
      end
  | Func => false
  end.

Fixpoint faithful_all (d : nat) (l : list any) : bool :=
  match l with
  | [] => true
  | x :: l' => faithful d x && faithful_all d l'
  end.

Lemma faithful_Slice d l : faithful (S d) (Slice l) = faithful_all d l.
Proof.
  induction l as [|x l IH]; [reflexivity|].
  cbn [faithful faithful_all] in *. rewrite IH. reflexivity.
Qed.

(** Induction on values, through the elements of slices. *)
Lemma any_induction (P : any -> Prop) :
  P Nil -> (forall b, P (Bool b)) -> (forall z, P (Int z)) -> (forall s, P (Str s)) ->
  (forall l, Forall P l -> P (Slice l)) -> P Func ->
  forall v, P v.
Proof.
  intros HNil HBool HInt HStr HSlice HFunc.
  fix IH 1. intros [|b|z|s|l|].
  - exact HNil.
  - apply HBool.
  - apply HInt.
  - apply HStr.
  - apply HSlice. induction l as [|x l IHl]; constructor; [apply IH|exact IHl].
  - exact HFunc.
Qed.

Fixpoint as_interface_all (l : list json) : option (list json) :=
  match l with
  | [] => Some []
  | x :: l' =>
      match as_interface x, as_interface_all l' with
      | Some a, Some b => Some (a :: b)
      | _, _ => None
      end
  end.

Lemma as_interface_JArray l : as_interface (JArray l) = option_map JArray (as_interface_all l).
Proof. reflexivity. Qed.

Lemma exact_float64_spec z :
  exact_float64 z = true ->
  exists m e, float64_of_Z z = Some (m, e) /\ 0 <= e /\ z = m * 2 ^ e.
Proof.
  unfold exact_float64. destruct (float64_of_Z z) as [[m e]|] eqn:Hf; [|discriminate].
  intros Hz. apply Z.eqb_eq in Hz. exists m, e. split; [reflexivity|]. split; [|exact Hz].
  unfold float64_of_Z in Hf.
  destruct (Z.log2 (Z.abs z) <=? 52) eqn:Hk.
  - injection Hf as <- <-. lia.
  - apply Z.leb_gt in Hk. destruct (2 ^ 1024 <=? _); [discriminate|].
    injection Hf as <- <-. lia.
Qed.

Lemma faithful_value : forall v d,
  faithful d v = true ->
  marshal_any v = Some (print (tree_of v))
  /\ plain d (tree_of v) = true
  /\ exists t, as_interface (tree_of v) = Some t /\ json_equal v t = true.
Proof.
  induction v as [|b|z|s|l IH|] using any_induction; intros d Hv.
  - repeat split. exists JNull. split; reflexivity.
  - repeat split; [destruct b; reflexivity|].
    exists (JBool b). split; [reflexivity|]. destruct b; reflexivity.
  - cbn [faithful] in Hv. repeat split.
    destruct (exact_float64_spec z Hv) as (m & e & Hf & He & Hz).
    exists (JNumber m e). split.
    + cbn [tree_of as_interface]. change (0 =? 0) with true. cbv iota.
      rewrite Hf. reflexivity.
    + cbn [json_equal]. apply andb_true_iff. split; [apply Z.leb_le; exact He|].
      apply Z.eqb_eq. exact Hz.
  - cbn [faithful] in Hv. repeat split; [exact Hv|].
    exists (JString s). split; [reflexivity|]. cbn [json_equal]. apply String.eqb_refl.
  - destruct d as [|d]; [discriminate|]. rewrite faithful_Slice in Hv.
    rewrite tree_of_Slice, marshal_any_Slice, print_JArray, plain_JArray, as_interface_JArray.
    assert (H : forall first,
              marshal_elems first l = Some (print_elems first (map tree_of l))
              /\ plain_elems d (map tree_of l) = true
              /\ exists ts, as_interface_all (map tree_of l) = Some ts
                            /\ json_equal_all l ts = true).
    { induction IH as [|x l Hx _ IHl]; intros first.
      - repeat split. exists []. split; reflexivity.
      - cbn [faithful_all] in Hv. apply andb_true_iff in Hv. destruct Hv as [Hvx Hvl].
        destruct (Hx d Hvx) as (Hm & Hp & t & Ht & Heq).
        destruct (IHl Hvl false) as (Hml & Hpl & ts & Hts & Heqs).
        cbn [marshal_elems map print_elems plain_elems as_interface_all].
        rewrite Hm, Hml, Hp, Hpl, Ht, Hts. repeat split.
        exists (t :: ts). split; [reflexivity|].
        cbn [json_equal_all]. rewrite Heq, Heqs. reflexivity. }
    destruct (H true) as (Hm & Hp & ts & Hts & Heqs).
    rewrite Hm, Hts. repeat split; [exact Hp|].
    exists (JArray ts). split; [reflexivity|]. rewrite json_equal_Slice. exact Heqs.
  - discriminate.
Qed.

(** The parameters of a request as one value: a nil slice is written as
    null. *)
Definition params_value (r : request) : any :=
  match Params r with
  | None => Nil
  | Some l => Slice l
  end.

Definition request_tree (r : request) : json :=
  JObject [("jsonrpc", JString (RPC r)); ("id", JNumber (ID r) 0);
           ("method", JString (Method r)); ("params", tree_of (params_value r))].

(** A tag that needs no escaping is written between quotes as it is. *)
Lemma field_tag (tag : string) :
  quote_from 0 true (list_ascii_of_string tag) = list_ascii_of_string tag ->
  field tag = appendString tag ++ lit ":".
Proof.
  intros Htag. unfold field, appendString. rewrite Htag.
  cbn [app]. rewrite <- app_assoc. reflexivity.
Qed.

Lemma marshal_request_print r d :
  faithful d (params_value r) = true ->
  marshal_request r = Some (print (request_tree r)).
Proof.
  intros Hps. unfold marshal_request, params_value in *.
  assert (Hm : marshal_slice (Params r)
               = Some (print (tree_of (match Params r with
                                       | Some l => Slice l
                                       | None => Nil
                                       end)))).
  { destruct (Params r) as [l|]; [|reflexivity].
    apply (faithful_value (Slice l) d Hps). }
  rewrite Hm. unfold request_tree, params_value. rewrite print_JObject.
  cbn [print_members print]. f_equal.
  rewrite (field_tag "jsonrpc"), (field_tag "id"), (field_tag "method"),
    (field_tag "params") by reflexivity.
  cbn [app]. rewrite <- !app_assoc. reflexivity.
Qed.

Lemma parse_top t d :
  plain d t = true -> (d <= maxNestingDepth)%nat -> parse (print t) = Parsed t [].
Proof.
  intros Hp Hd. unfold parse.
  pose proof (skip_ws_print t []) as Hs. rewrite app_nil_r in Hs. rewrite Hs.
  destruct (parse_print (S (length (print t)))) as (Hv & _).
  pose proof (Hv t d 0%nat [] Hp) as Hrun. rewrite app_nil_r in Hrun.
  rewrite Hrun; [reflexivity|lia|lia|exact I].
Qed.

(** The depth left for the parameters inside the request object. *)
Definition paramsDepth : nat := pred maxNestingDepth.

Lemma paramsDepth_S : S paramsDepth = maxNestingDepth.
Proof. vm_compute. reflexivity. Qed.

(** C9, as the code has it. Encoding a request and decoding the bytes,
    without the delimiter, as a response gives back the id, the method
    and parameters that are JSON-equal, for the requests whose strings are
    valid UTF-8 and whose parameters are nil, booleans, strings, integers
    that are exactly a float64, and arrays of those (nested no deeper than
    the decoder accepts). *)
Theorem encode_decode_request (r : request) :
  valid_utf8 (RPC r) = true ->
  valid_utf8 (Method r) = true ->
  in_int64 (ID r) = true ->
  faithful paramsDepth (params_value r) = true ->
  exists obj resp,
    encode r = inr (obj ++ [delimiter])
    /\ Unmarshal_response obj = Decoded resp
    /\ resp_ID resp = ID r
    /\ resp_Method resp = Method r
    /\ json_equal (params_value r) (resp_Params resp) = true.
Proof.
  intros Hrpc Hmethod Hid Hps.
  set (r' := with_RPC r).
  assert (Hr' : ID r' = ID r /\ Method r' = Method r /\ Params r' = Params r
                /\ valid_utf8 (RPC r') = true).
  { subst r'. unfold with_RPC. destruct (String.eqb (RPC r) EmptyString); auto. }
  destruct Hr' as (HID & HM & HP & Hrpc').
  assert (Hpv : params_value r' = params_value r)
    by (unfold params_value; rewrite HP; reflexivity).
  destruct (faithful_value _ _ Hps) as (_ & Hplain & t & Ht & Heq).
  exists (print (request_tree r')),
         (mk_response (RPC r') (ID r) (Method r) t JNull None).
  split; [|split].
  - unfold encode. fold r'.
    rewrite (marshal_request_print r' paramsDepth) by (rewrite Hpv; exact Hps).
    reflexivity.
  - unfold Unmarshal_response.
    rewrite (parse_top (request_tree r') (S paramsDepth)).
    + unfold request_tree. rewrite Hpv, HID, HM.
      cbn [set_fields]. unfold set_field at 1.
      change (fold_key "jsonrpc") with (Some "jsonrpc"%string).
      change (String.eqb "jsonrpc" "jsonrpc") with true. cbv iota.
      unfold set_field at 1.
      change (fold_key "id") with (Some "id"%string).
      change (String.eqb "id" "jsonrpc") with false.
      change (String.eqb "id" "id") with true. cbv iota. rewrite Hid.
      unfold set_field at 1.
      change (fold_key "method") with (Some "method"%string).
      change (String.eqb "method" "jsonrpc") with false.
      change (String.eqb "method" "id") with false.
      change (String.eqb "method" "method") with true. cbv iota.
      unfold set_field at 1.
      change (fold_key "params") with (Some "params"%string).
      change (String.eqb "params" "jsonrpc") with false.
      change (String.eqb "params" "id") with false.
      change (String.eqb "params" "method") with false.
      change (String.eqb "params" "params") with true. cbv iota.
      rewrite Ht. reflexivity.
    + unfold request_tree. rewrite plain_JObject. cbn [plain_members].
      rewrite Hpv, Hplain. cbn [plain]. rewrite Hrpc', HM, Hmethod. reflexivity.
    + rewrite paramsDepth_S. apply le_n.
  - cbn. repeat split. exact Heq.
Qed.

(** Every integer of magnitude at most 2^53 is exactly a float64. *)
Lemma exact_float64_small z : Z.abs z <= 2 ^ 53 -> exact_float64 z = true.
Proof.
  intros Hz. unfold exact_float64, float64_of_Z.
  destruct (Z.log2 (Z.abs z) <=? 52) eqn:Hk.
  - apply Z.eqb_eq. lia.
  - apply Z.leb_gt in Hk.
    assert (Habs : Z.abs z = 2 ^ 53).
    { destruct (Z.eq_dec (Z.abs z) (2 ^ 53)) as [|Hne]; [assumption|].
      assert (Hlt : Z.abs z < 2 ^ 53) by lia.
      destruct (Z.eq_dec (Z.abs z) 0) as [H0|H0].
      - rewrite H0 in Hk. simpl in Hk. lia.
      - apply Z.log2_lt_pow2 in Hlt; lia. }
    destruct (Z.abs_eq_or_opp z) as [Heq|Heq]; rewrite Heq in Habs.
    + subst z. reflexivity.
    + assert (z = - 2 ^ 53) by lia. subst z. reflexivity.
Qed.

(** Scenario: [BlockHeader] builds its request with the parameters
    [index] and [index + 1]; here [index] is 2^53 + 1. *)
Definition big_index : request :=
  mk_request EmptyString 0 "blockchain.block.header"
    (Some [Int 9007199254740993; Int 9007199254740994]).

Definition big_index_decoded : response :=
  mk_response "2.0" 0 "blockchain.block.header"
    (JArray [JNumber 4503599627370496 1; JNumber 4503599627370497 1]) JNull None.

Lemma encode_decode_counterexample :
  encode big_index = inr (print (request_tree (with_RPC big_index)) ++ [delimiter])
  /\ Unmarshal_response (print (request_tree (with_RPC big_index)))
     = Decoded big_index_decoded
  /\ json_equal (params_value big_index) (resp_Params big_index_decoded) = false.
Proof. repeat split; vm_compute; reflexivity. Qed.

(** Scenario: the request of [GetVerboseTransaction]. *)
Definition verbose_request : request :=
  mk_request EmptyString 7 "blockchain.transaction.get"
    (Some [Str "4f73e43b92d337da"; Bool true]).

Lemma encode_decode_request_witness :
  valid_utf8 (RPC verbose_request) = true
  /\ valid_utf8 (Method verbose_request) = true
  /\ in_int64 (ID verbose_request) = true
  /\ faithful paramsDepth (params_value verbose_request) = true
  /\ exists obj resp,
       encode verbose_request = inr (obj ++ [delimiter])
       /\ Unmarshal_response obj = Decoded resp
       /\ resp_ID resp = 7
       /\ resp_Method resp = "blockchain.transaction.get"%string
       /\ json_equal (Slice [Str "4f73e43b92d337da"; Bool true]) (resp_Params resp) = true.
Proof.
  assert (H1 : valid_utf8 (RPC verbose_request) = true) by reflexivity.
  assert (H2 : valid_utf8 (Method verbose_request) = true) by (vm_compute; reflexivity).
  assert (H3 : in_int64 (ID verbose_request) = true) by (vm_compute; reflexivity).
  assert (H4 : faithful paramsDepth (params_value verbose_request) = true)
    by (vm_compute; reflexivity).
  repeat (split; [assumption|]).
  exact (encode_decode_request verbose_request H1 H2 H3 H4).
Defined.
